(** * Pixel mappers of rpi-rgb-led-matrix: a shallow embedding of
      [lib/pixel-mapper.cc] and the properties of its coordinate transforms.

    A pixel mapper translates the coordinates of the visible canvas an
    application draws on into coordinates of the physical matrix.  The file
    follows the source top-down: the five built-in mappers (one module per
    C++ class), the registry keyed by lower-cased names, and the public
    lookup function.

    Modelling conventions.
    - A C++ [int] is a [Z].  Signed overflow and division by zero are
      undefined behaviour; every arithmetic operator of the source is a
      checked operation into [option], [None] standing for an execution
      whose behaviour is undefined.  Statements are sequenced in the
      option monad, so that an undefined sub-expression makes the whole call
      undefined, also when its value is never used.
    - [/] and [%] truncate towards zero ([Z.quot], [Z.rem]).
    - A [const char *] is an [option string] where NULL is possible, [None]
      being NULL; the characters of the [string] are the bytes before the
      terminator.
    - Output parameters ([int *matrix_x]) are cells: a function that may
      leave them unassigned takes their previous contents.
    - Mutable member variables are record fields; [SetParameters] returns
      the object's new state next to its boolean result.
    - [fprintf (stderr, ...)] diagnostics carry no state and are left out;
      a comment marks each place. *)

From Stdlib Require Import ZArith Lia String Ascii.
From stdpp Require Import base option gmap strings sorting.

Local Open Scope Z_scope.

(** ** C++ [int] arithmetic *)

Definition INT_MIN : Z := -2147483648.
Definition INT_MAX : Z := 2147483647.

Definition is_int (z : Z) : Prop := INT_MIN <= z <= INT_MAX.

#[global] Instance is_int_dec z : Decision (is_int z).
Proof. unfold is_int. apply _. Defined.

(** The result of an arithmetic operator: defined when representable. *)
Definition int_result (z : Z) : option Z :=
  if decide (is_int z) then Some z else None.

(** Sequencing of statements: an undefined step makes the rest undefined. *)
Definition bind {A B : Type} (c : option A) (k : A -> option B) : option B :=
  match c with
  | Some a => k a
  | None => None
  end.

Declare Scope cint_scope.
Delimit Scope cint_scope with cint.
Notation "x <- c ; k" := (bind c (fun x => k))
  (at level 20, c at level 100, k at level 200, only parsing) : cint_scope.
Notation "' p <- c ; k" := (bind c (fun p => k))
  (at level 20, p pattern, c at level 100, k at level 200, only parsing)
  : cint_scope.
Local Open Scope cint_scope.

(** Operands are themselves results of sub-expressions. *)
Definition lit (z : Z) : option Z := Some z.
Coercion lit : Z >-> option.

Definition int_add (a b : option Z) : option Z :=
  a <- a ; b <- b ; int_result (a + b).
Definition int_sub (a b : option Z) : option Z :=
  a <- a ; b <- b ; int_result (a - b).
Definition int_mul (a b : option Z) : option Z :=
  a <- a ; b <- b ; int_result (a * b).
Definition int_div (a b : option Z) : option Z :=
  a <- a ; b <- b ;
  if decide (b = 0) then None else int_result (Z.quot a b).
(** [a % b] is defined exactly when [a / b] is. *)
Definition int_mod (a b : option Z) : option Z :=
  a <- a ; b <- b ;
  if decide (b = 0) then None
  else _ <- int_result (Z.quot a b) ; Some (Z.rem a b).

Infix "+!" := int_add (at level 50, left associativity) : cint_scope.
Infix "-!" := int_sub (at level 50, left associativity) : cint_scope.
Infix "*!" := int_mul (at level 40, left associativity) : cint_scope.
Infix "/!" := int_div (at level 40, left associativity) : cint_scope.
Infix "%!" := int_mod (at level 40, left associativity) : cint_scope.

#[global] Arguments int_add : simpl never.
#[global] Arguments int_sub : simpl never.
#[global] Arguments int_mul : simpl never.
#[global] Arguments int_div : simpl never.
#[global] Arguments int_mod : simpl never.

(** Conversions between [bool] and [int]. *)
Definition int_of_bool (b : bool) : Z := if b then 1 else 0.
Definition bool_of_int (z : Z) : bool := negb (z =? 0).

(** ** The C library functions the source calls *)

(** [long] has 64 bits, as on Linux for 64-bit processors. *)
Definition LONG_MIN : Z := -9223372036854775808.
Definition LONG_MAX : Z := 9223372036854775807.

Definition char_code (c : ascii) : Z := Z.of_N (N_of_ascii c).

(** [tolower] in the C locale. *)
Definition tolower (c : ascii) : ascii :=
  if (65 <=? char_code c) && (char_code c <=? 90)
  then ascii_of_N (N_of_ascii c + 32) else c.

(** [isspace] in the C locale: space, and \t \n \v \f \r. *)
Definition isspace (c : ascii) : bool :=
  (char_code c =? 32) || ((9 <=? char_code c) && (char_code c <=? 13)).

Definition digit_value (c : ascii) : option Z :=
  if (48 <=? char_code c) && (char_code c <=? 57)
  then Some (char_code c - 48) else None.

Fixpoint skip_spaces (s : string) : string :=
  match s with
  | String c rest => if isspace c then skip_spaces rest else s
  | EmptyString => s
  end.

(** The longest run of decimal digits, its value accumulated in [acc]. *)
Fixpoint scan_digits (acc : Z) (s : string) : Z * string :=
  match s with
  | String c rest =>
      match digit_value c with
      | Some d => scan_digits (10 * acc + d) rest
      | None => (acc, s)
      end
  | EmptyString => (acc, s)
  end.

Definition clamp_long (z : Z) : Z := Z.max LONG_MIN (Z.min LONG_MAX z).

(** [strtol (nptr, &endptr, 10)]: the value, saturated to [long], and the
    text [endptr] points at.  Without any digit the value is 0 and
    [endptr] is [nptr]. *)
Definition strtol (nptr : string) : Z * string :=
  let s := skip_spaces nptr in
  let '(negative, s) :=
    match s with
    | String "-"%char rest => (true, rest)
    | String "+"%char rest => (false, rest)
    | _ => (false, s)
    end in
  match s with
  | String c _ =>
      match digit_value c with
      | Some _ =>
          let '(v, endptr) := scan_digits 0 s in
          (clamp_long (if negative then - v else v), endptr)
      | None => (0, nptr)
      end
  | EmptyString => (0, nptr)
  end.

(** The conversion of a [long] to [int] keeps the low 32 bits. *)
Definition int_of_long (z : Z) : Z :=
  (z + 2147483648) mod 4294967296 - 2147483648.

(** [strcasecmp]: the difference of the first lower-cased bytes that differ,
    the terminator counting as 0. *)
Fixpoint strcasecmp (s1 s2 : string) : Z :=
  match s1, s2 with
  | EmptyString, EmptyString => 0
  | EmptyString, String c2 _ => 0 - char_code (tolower c2)
  | String c1 _, EmptyString => char_code (tolower c1)
  | String c1 r1, String c2 r2 =>
      if decide (tolower c1 = tolower c2) then strcasecmp r1 r2
      else char_code (tolower c1) - char_code (tolower c2)
  end.

Definition strlen (s : string) : Z := Z.of_nat (String.length s).

(** ** The mapper interface ([class PixelMapper] of pixel-mapper.h) *)

Class PixelMapper (M : Type) := {
  GetName : M -> string;
  (** [bool SetParameters (int chain, int parallel, const char *param)] *)
  SetParameters : M -> Z -> Z -> option string -> option (bool * M);
  (** [bool GetSizeMapping (matrix_width, matrix_height, *visible_width,
      *visible_height)]: the result and the two values written. *)
  GetSizeMapping : M -> Z -> Z -> option (bool * (Z * Z));
  (** [void MapVisibleToMatrix (matrix_width, matrix_height, x, y,
      *matrix_x, *matrix_y)]: takes and returns the contents of the
      two output cells. *)
  MapVisibleToMatrix : M -> Z -> Z -> Z -> Z -> Z * Z -> option (Z * Z)
}.

(** ** Rotate *)
Module RotatePixelMapper.

Record t := { angle_ : Z }.

(** The constructor. *)
Definition new : t := {| angle_ := 0 |}.

Definition GetName (m : t) : string := "Rotate".

Definition SetParameters (m : t) (chain parallel : Z) (param : option string)
  : option (bool * t) :=
  match param with
  | None => Some (true, {| angle_ := 0 |})
  | Some param =>
      if decide (strlen param = 0) then Some (true, {| angle_ := 0 |})
      else
        let '(v, errpos) := strtol param in
        let angle := int_of_long v in
        match errpos with
        | String _ _ => (* "Invalid rotate parameter" *) Some (false, m)
        | EmptyString =>
            r <- angle %! 90 ;
            if decide (r <> 0)
            then (* "Rotation needs to be multiple of 90 degrees" *)
              Some (false, m)
            else
              a <- (angle +! 360) %! 360 ;
              Some (true, {| angle_ := a |})
        end
  end.

Definition GetSizeMapping (m : t) (matrix_width matrix_height : Z)
  : option (bool * (Z * Z)) :=
  r <- angle_ m %! 180 ;
  if decide (r = 0)
  then Some (true, (matrix_width, matrix_height))
  else Some (true, (matrix_height, matrix_width)).

(** The [switch] has no [default]: for any other angle the cells keep
    their contents. *)
Definition MapVisibleToMatrix (m : t) (matrix_width matrix_height x y : Z)
    (out : Z * Z) : option (Z * Z) :=
  if decide (angle_ m = 0) then
    Some (x, y)
  else if decide (angle_ m = 90) then
    matrix_x <- matrix_width -! y -! 1 ;
    Some (matrix_x, x)
  else if decide (angle_ m = 180) then
    matrix_x <- matrix_width -! x -! 1 ;
    matrix_y <- matrix_height -! y -! 1 ;
    Some (matrix_x, matrix_y)
  else if decide (angle_ m = 270) then
    matrix_y <- matrix_height -! x -! 1 ;
    Some (y, matrix_y)
  else Some out.

End RotatePixelMapper.

#[export] Instance Rotate_PixelMapper : PixelMapper RotatePixelMapper.t := {
  GetName := RotatePixelMapper.GetName;
  SetParameters := RotatePixelMapper.SetParameters;
  GetSizeMapping := RotatePixelMapper.GetSizeMapping;
  MapVisibleToMatrix := RotatePixelMapper.MapVisibleToMatrix
}.

(** ** Mirror *)
Module MirrorPixelMapper.

Record t := { horizontal_ : bool }.

Definition new : t := {| horizontal_ := true |}.

Definition GetName (m : t) : string := "Mirror".

Definition SetParameters (m : t) (chain parallel : Z) (param : option string)
  : option (bool * t) :=
  match param with
  | None => Some (true, {| horizontal_ := true |})
  | Some EmptyString => Some (true, {| horizontal_ := true |})
  | Some (String c _) =>
      (* if (strlen (param) != 1): "Mirror parameter should be a single
         character: 'V' or 'H'" is printed; execution continues. *)
      if decide (c = "V"%char \/ c = "v"%char) then
        Some (true, {| horizontal_ := false |})
      else if decide (c = "H"%char \/ c = "h"%char) then
        Some (true, {| horizontal_ := true |})
      else (* "Mirror parameter should be either 'V' or 'H'" *)
        Some (false, m)
  end.

Definition GetSizeMapping (m : t) (matrix_width matrix_height : Z)
  : option (bool * (Z * Z)) :=
  Some (true, (matrix_width, matrix_height)).

Definition MapVisibleToMatrix (m : t) (matrix_width matrix_height x y : Z)
    (out : Z * Z) : option (Z * Z) :=
  if horizontal_ m then
    matrix_x <- matrix_width -! 1 -! x ;
    Some (matrix_x, y)
  else
    matrix_y <- matrix_height -! 1 -! y ;
    Some (x, matrix_y).

End MirrorPixelMapper.

#[export] Instance Mirror_PixelMapper : PixelMapper MirrorPixelMapper.t := {
  GetName := MirrorPixelMapper.GetName;
  SetParameters := MirrorPixelMapper.SetParameters;
  GetSizeMapping := MirrorPixelMapper.GetSizeMapping;
  MapVisibleToMatrix := MirrorPixelMapper.MapVisibleToMatrix
}.

(** ** U-mapper *)
Module UArrangementMapper.

Record t := { parallel_ : Z }.

Definition new : t := {| parallel_ := 1 |}.

Definition GetName (m : t) : string := "U-mapper".

Definition SetParameters (m : t) (chain parallel : Z) (param : option string)
  : option (bool * t) :=
  if decide (chain < 2) then
    (* "U-mapper: need at least --led-chain=4 for useful folding" *)
    Some (false, m)
  else
    r <- chain %! 2 ;
    if decide (r <> 0) then
      (* "U-mapper: Chain (--led-chain) needs to be divisible by two" *)
      Some (false, m)
    else Some (true, {| parallel_ := parallel |}).

Definition GetSizeMapping (m : t) (matrix_width matrix_height : Z)
  : option (bool * (Z * Z)) :=
  visible_width <- matrix_width /! 64 *! 32 ;
  visible_height <- 2 *! matrix_height ;
  r <- matrix_height %! parallel_ m ;
  if decide (r <> 0) then
    (* "... we would expect the height=%d to be divisible by %d ??" *)
    Some (false, (visible_width, visible_height))
  else Some (true, (visible_width, visible_height)).

Definition MapVisibleToMatrix (m : t) (matrix_width matrix_height x y : Z)
    (out : Z * Z) : option (Z * Z) :=
  panel_height <- matrix_height /! parallel_ m ;
  visible_width <- matrix_width /! 64 *! 32 ;
  slab_height <- 2 *! panel_height ;
  base_y <- y /! slab_height *! panel_height ;
  y <- y %! slab_height ;
  '(x, y) <- (if decide (y < panel_height) then
               x <- x +! matrix_width /! 2 ;
               Some (x, y)
             else
               x <- visible_width -! x -! 1 ;
               y <- slab_height -! y -! 1 ;
               Some (x, y)) ;
  matrix_y <- base_y +! y ;
  Some (x, matrix_y).

End UArrangementMapper.

#[export] Instance UArrangement_PixelMapper
  : PixelMapper UArrangementMapper.t := {
  GetName := UArrangementMapper.GetName;
  SetParameters := UArrangementMapper.SetParameters;
  GetSizeMapping := UArrangementMapper.GetSizeMapping;
  MapVisibleToMatrix := UArrangementMapper.MapVisibleToMatrix
}.

(** ** V-mapper *)
Module VerticalMapper.

(** The constructor initialises no member: a fresh object holds
    indeterminate values until [SetParameters] runs. *)
Record t := { z_ : bool; chain_ : Z; parallel_ : Z }.

Definition GetName (m : t) : string := "V-mapper".

Definition SetParameters (m : t) (chain parallel : Z) (param : option string)
  : option (bool * t) :=
  let z :=
    match param with
    | Some param => bool_decide (strcasecmp param "Z" = 0)
    | None => false
    end in
  Some (true, {| z_ := z; chain_ := chain; parallel_ := parallel |}).

Definition GetSizeMapping (m : t) (matrix_width matrix_height : Z)
  : option (bool * (Z * Z)) :=
  visible_width <- matrix_width *! parallel_ m /! chain_ m ;
  visible_height <- matrix_height *! chain_ m /! parallel_ m ;
  Some (true, (visible_width, visible_height)).

Definition MapVisibleToMatrix (m : t) (matrix_width matrix_height x y : Z)
    (out : Z * Z) : option (Z * Z) :=
  panel_width <- matrix_width /! chain_ m ;
  panel_height <- matrix_height /! parallel_ m ;
  odd <- matrix_width /! panel_width %! 2 ;
  let is_height_even_panels := bool_of_int odd in
  x_panel_start <- y /! panel_height *! panel_width ;
  y_panel_start <- x /! panel_width *! panel_height ;
  x_within_panel <- x %! panel_width ;
  y_within_panel <- y %! panel_height ;
  needs_flipping <-
    (if z_ m then
       d <- int_of_bool is_height_even_panels -! (y /! panel_height %! 2) ;
       Some (bool_decide (d = 0))
     else Some false) ;
  matrix_x <- x_panel_start +! (if needs_flipping : bool
                                then panel_width -! 1 -! x_within_panel
                                else lit x_within_panel) ;
  matrix_y <- y_panel_start +! (if needs_flipping : bool
                                then panel_height -! 1 -! y_within_panel
                                else lit y_within_panel) ;
  Some (matrix_x, matrix_y).

End VerticalMapper.

#[export] Instance Vertical_PixelMapper : PixelMapper VerticalMapper.t := {
  GetName := VerticalMapper.GetName;
  SetParameters := VerticalMapper.SetParameters;
  GetSizeMapping := VerticalMapper.GetSizeMapping;
  MapVisibleToMatrix := VerticalMapper.MapVisibleToMatrix
}.

(** ** Windmill *)
Module WindmillPixelMapper.

Record t := { z_ : bool; swap_lr_ : bool; chain_ : Z; parallel_ : Z }.

Definition new : t :=
  {| z_ := false; swap_lr_ := false; chain_ := 1; parallel_ := 1 |}.

Definition GetName (m : t) : string := "Windmill".

Definition is_separator (c : ascii) : bool :=
  bool_decide (c = ":"%char \/ c = ","%char \/ c = ";"%char \/ c = " "%char).

(** The loop over the characters of [param], on the object's state. *)
Fixpoint scan_flags (m : t) (p : string) : bool * t :=
  match p with
  | EmptyString => (true, m)
  | String c rest =>
      if is_separator c then scan_flags m rest
      else if decide (c = "Z"%char \/ c = "z"%char) then
        scan_flags {| z_ := true; swap_lr_ := swap_lr_ m;
                      chain_ := chain_ m; parallel_ := parallel_ m |} rest
      else if decide (c = "S"%char \/ c = "s"%char) then
        scan_flags {| z_ := z_ m; swap_lr_ := true;
                      chain_ := chain_ m; parallel_ := parallel_ m |} rest
      else (* "Windmill: unknown parameter '%c' (use Z and/or S)" *)
        (false, m)
  end.

Definition SetParameters (m : t) (chain parallel : Z) (param : option string)
  : option (bool * t) :=
  let m := {| z_ := z_ m; swap_lr_ := swap_lr_ m;
              chain_ := chain; parallel_ := parallel |} in
  if decide (parallel_ m <> 2) then
    (* "Windmill: requires --led-parallel=2 (got %d)" *)
    Some (false, m)
  else
    let m := {| z_ := false; swap_lr_ := false;
                chain_ := chain_ m; parallel_ := parallel_ m |} in
    match param with
    | Some param => Some (scan_flags m param)
    | None => Some (true, m)
    end.

Definition GetSizeMapping (m : t) (matrix_width matrix_height : Z)
  : option (bool * (Z * Z)) :=
  panel_width <- matrix_width /! chain_ m ;
  panel_height <- matrix_height /! parallel_ m ;
  visible_width <- panel_height *! chain_ m *! parallel_ m ;
  let visible_height := panel_width in
  Some (true, (visible_width, visible_height)).

Definition MapVisibleToMatrix (m : t) (matrix_width matrix_height x y : Z)
    (out : Z * Z) : option (Z * Z) :=
  panel_width <- matrix_width /! chain_ m ;
  panel_height <- matrix_height /! parallel_ m ;
  panels_total <- chain_ m *! parallel_ m ;
  panel_index_along_width <- x /! panel_height ;
  rx <- x %! panel_height ;
  let ry := y in
  let half := chain_ m in
  let is_left_half :=
    if decide (panel_index_along_width < half) then 1 else 0 in
  idx_in_half <- (if bool_of_int is_left_half
                 then half -! 1 -! panel_index_along_width
                 else panel_index_along_width -! half) ;
  let p_left := if swap_lr_ m then 1 else 0 in
  let p_right := if swap_lr_ m then 0 else 1 in
  let p := if bool_of_int is_left_half then p_left else p_right in
  cpos <- (if bool_of_int is_left_half
          then lit panel_index_along_width
          else chain_ m -! 1 -! idx_in_half) ;
  let ux := ry in
  uy <- panel_height -! 1 -! rx ;
  uy <- (if bool_of_int is_left_half
        then panel_height -! 1 -! uy else lit uy) ;
  flip <- (if z_ m then r <- cpos %! 2 ; Some (bool_decide (r = 1))
          else Some false) ;
  '(ux, uy) <- (if flip : bool then
                 ux <- panel_width -! 1 -! ux ;
                 uy <- panel_height -! 1 -! uy ;
                 Some (ux, uy)
               else Some (ux, uy)) ;
  matrix_x <- cpos *! panel_width +! ux ;
  matrix_y <- p *! panel_height +! uy ;
  if bool_of_int is_left_half then
    matrix_x <- (cpos +! 1) *! panel_width -! 1 -! ux ;
    matrix_y <- (p +! 1) *! panel_height -! 1 -! uy ;
    Some (matrix_x, matrix_y)
  else Some (matrix_x, matrix_y).

End WindmillPixelMapper.

#[export] Instance Windmill_PixelMapper : PixelMapper WindmillPixelMapper.t := {
  GetName := WindmillPixelMapper.GetName;
  SetParameters := WindmillPixelMapper.SetParameters;
  GetSizeMapping := WindmillPixelMapper.GetSizeMapping;
  MapVisibleToMatrix := WindmillPixelMapper.MapVisibleToMatrix
}.

(** ** The registry *)

(** A [PixelMapper *]: an object of some class implementing the interface.
    The registry owns the objects it points to, so the model stores each
    object's state in the registry entry itself. *)
Record Object := {
  mapper_class : Type;
  mapper_ops : PixelMapper mapper_class;
  mapper_state : mapper_class
}.

Definition object `{PixelMapper M} (m : M) : Object :=
  {| mapper_class := M; mapper_ops := _; mapper_state := m |}.

Definition object_name (mapper : Object) : string :=
  @GetName _ (mapper_ops mapper) (mapper_state mapper).

(** The object after [mapper->SetParameters (...)], with the call's result. *)
Definition object_configure (mapper : Object) (chain parallel : Z)
    (param : option string) : option (bool * Object) :=
  '(ok, st) <- @SetParameters _ (mapper_ops mapper) (mapper_state mapper)
                 chain parallel param ;
  Some (ok, {| mapper_class := mapper_class mapper;
               mapper_ops := mapper_ops mapper;
               mapper_state := st |}).

(** [std::map<std::string, PixelMapper*>] *)
Abbreviation MapperByName := (gmap string Object).

(** The loop appending [tolower] of each character of the name to
    [lower_name]. *)
Fixpoint lower_name (n : string) : string :=
  match n with
  | EmptyString => EmptyString
  | String c rest => String (tolower c) (lower_name rest)
  end.

(** [assert (mapper != NULL)] holds by the type of [mapper]. *)
Definition RegisterPixelMapperInternal (registry : MapperByName)
    (mapper : Object) : MapperByName :=
  <[lower_name (object_name mapper) := mapper]> registry.

(** The order in which a [std::map] with [std::string] keys is iterated:
    ascending keys, strings compared character by character as unsigned
    values. *)
Definition key_le (e1 e2 : string * Object) : Prop :=
  String.leb e1.1 e2.1 = true.

#[global] Instance key_le_dec e1 e2 : Decision (key_le e1 e2).
Proof. unfold key_le. apply _. Defined.

Section Registry.

(** What the memory of the freshly allocated [VerticalMapper] holds. *)
Variable indeterminate : VerticalMapper.t.

Definition CreateMapperMap : MapperByName :=
  let result : MapperByName := ∅ in
  let result := RegisterPixelMapperInternal result
                  (object RotatePixelMapper.new) in
  let result := RegisterPixelMapperInternal result
                  (object UArrangementMapper.new) in
  let result := RegisterPixelMapperInternal result
                  (object indeterminate) in
  let result := RegisterPixelMapperInternal result
                  (object WindmillPixelMapper.new) in
  let result := RegisterPixelMapperInternal result
                  (object MirrorPixelMapper.new) in
  result.

(** The function-local static [singleton_instance]: [None] until the
    first call creates the map. *)
Definition GetMapperMap (singleton_instance : option MapperByName)
  : MapperByName :=
  match singleton_instance with
  | Some registry => registry
  | None => CreateMapperMap
  end.

(** The public functions take the static's state and return its new
    state, which is the map they worked on. *)
Definition RegisterPixelMapper (singleton_instance : option MapperByName)
    (mapper : Object) : option MapperByName :=
  Some (RegisterPixelMapperInternal (GetMapperMap singleton_instance) mapper).

(** The names are collected while the map is iterated, in the order of
    its keys. *)
Definition GetAvailablePixelMappers (singleton_instance : option MapperByName)
  : list string * option MapperByName :=
  let m := GetMapperMap singleton_instance in
  let result := object_name <$> (merge_sort key_le (map_to_list m)).*2 in
  (result, Some m).

(** The result is the pointer found in the map, or NULL: the object it
    points to is the one the map holds, in its state after the call. *)
Definition FindPixelMapper (singleton_instance : option MapperByName)
    (name : string) (chain parallel : Z) (parameter : option string)
  : option (option Object * option MapperByName) :=
  let lower_name := lower_name name in
  let registry := GetMapperMap singleton_instance in
  match registry !! lower_name with
  | None => (* "%s: no such mapper" *) Some (None, Some registry)
  | Some mapper =>
      (* if (mapper == NULL) return NULL;  -- no entry holds NULL *)
      '(ok, mapper) <- object_configure mapper chain parallel parameter ;
      let registry := <[lower_name := mapper]> registry in
      if ok : bool then Some (Some mapper, Some registry)
      else Some (None, Some registry)
  end.

End Registry.

(** ** Vocabulary of the statements *)

(** The characters of a parameter; NULL has none. *)
Definition param_chars (param : option string) : list ascii :=
  match param with
  | Some param => list_ascii_of_string param
  | None => []
  end.

(** A [string] that stands for a C string holds no terminator. *)
Definition c_string (s : string) : Prop :=
  "000"%char ∉ list_ascii_of_string s.

(** The flags and separators of the Windmill parameter. *)
Definition windmill_char (c : ascii) : Prop :=
  c ∈ ["Z"; "z"; "S"; "s"; ":"; ","; ";"; " "]%char.

(** The first character of a Mirror parameter names an axis. *)
Definition mirror_axis_char (c : ascii) : Prop :=
  c ∈ ["H"; "h"; "V"; "v"]%char.

(** The size and the mapping of a mapper agree on a matrix: when
    [GetSizeMapping] succeeds, every coordinate of the visible canvas is
    mapped into the matrix, and no two of them to the same place. *)
Definition size_and_mapping_agree `{PixelMapper M} (m : M) (W H : Z) : Prop :=
  forall vw vh,
    GetSizeMapping m W H = Some (true, (vw, vh)) ->
    (forall x y out,
       0 <= x < vw -> 0 <= y < vh ->
       exists mx my,
         MapVisibleToMatrix m W H x y out = Some (mx, my) /\
         0 <= mx < W /\ 0 <= my < H) /\
    (forall x1 y1 x2 y2 out,
       0 <= x1 < vw -> 0 <= y1 < vh -> 0 <= x2 < vw -> 0 <= y2 < vh ->
       MapVisibleToMatrix m W H x1 y1 out
       = MapVisibleToMatrix m W H x2 y2 out ->
       x1 = x2 /\ y1 = y2).

(** Every place of the matrix shows a coordinate of the visible canvas. *)
Definition mapping_covers_matrix `{PixelMapper M} (m : M) (W H : Z) : Prop :=
  forall vw vh,
    GetSizeMapping m W H = Some (true, (vw, vh)) ->
    forall mx my out,
      0 <= mx < W -> 0 <= my < H ->
      exists x y,
        (0 <= x < vw /\ 0 <= y < vh) /\
        MapVisibleToMatrix m W H x y out = Some (mx, my).

(** One of the states the memory of the fresh [VerticalMapper] can have. *)
Definition zeroed : VerticalMapper.t :=
  {| VerticalMapper.z_ := false; VerticalMapper.chain_ := 0;
     VerticalMapper.parallel_ := 0 |}.

(** What a lookup that found [mapper] under [key] returns: the mapper
    after [SetParameters] if that returned true, and the map holding the
    mapper in its new state. *)
Definition configured_entry (registry : MapperByName) (key : string)
    (mapper : Object) (chain parallel : Z) (parameter : option string)
  : option (option Object * option MapperByName) :=
  '(ok, mapper') <- object_configure mapper chain parallel parameter ;
  Some (if ok : bool then Some mapper' else None,
        Some (<[key := mapper']> registry)).


(** Every key is the lower-cased name of the mapper it leads to. *)
Definition keys_are_lowered_names (registry : MapperByName) : Prop :=
  forall key mapper,
    registry !! key = Some mapper -> key = lower_name (object_name mapper).

(** Whether the V-mapper turns the panels of row [row] upside down. *)
Definition vertical_flip (z : bool) (chain row : Z) : bool :=
  z && bool_decide (int_of_bool (bool_of_int (chain mod 2)) - row mod 2 = 0).

(** Where the Windmill mapper sends a pixel: the position [cpos] of the
    panel along its chain and the channel [p], and the offsets within the
    panel. *)
Definition windmill_left (chain ph x : Z) : bool :=
  bool_decide (x / ph < chain).
Definition windmill_cpos (chain ph x : Z) : Z :=
  if windmill_left chain ph x then x / ph else 2 * chain - 1 - x / ph.
Definition windmill_channel (s : bool) (chain ph x : Z) : Z :=
  if windmill_left chain ph x then (if s then 1 else 0)
  else (if s then 0 else 1).
Definition windmill_flip (z : bool) (chain ph x : Z) : bool :=
  z && bool_decide (windmill_cpos chain ph x mod 2 = 1).
Definition windmill_ux (z : bool) (chain pw ph x y : Z) : Z :=
  if xorb (windmill_left chain ph x) (windmill_flip z chain ph x)
  then pw - 1 - y else y.
Definition windmill_uy (z : bool) (chain ph x : Z) : Z :=
  if windmill_flip z chain ph x then x mod ph else ph - 1 - x mod ph.

(** * Properties *)

(** ** Arithmetic that stays in range *)

Ltac int_bounds := unfold is_int, INT_MIN, INT_MAX in *; lia.

(** Membership in an explicit list, as a disjunction of equations. *)
Ltac in_list := rewrite ?elem_of_cons, ?elem_of_nil in *.

Lemma int_result_ok (z : Z) : is_int z -> int_result z = Some z.
Proof.
  intros Hz. unfold int_result.
  destruct (decide (is_int z)); [reflexivity | contradiction].
Qed.

Lemma add_ok (a b : Z) : is_int (a + b) -> Some a +! Some b = Some (a + b).
Proof. intros Hz. now apply int_result_ok. Qed.

Lemma sub_ok (a b : Z) : is_int (a - b) -> Some a -! Some b = Some (a - b).
Proof. intros Hz. now apply int_result_ok. Qed.

Lemma mul_ok (a b : Z) : is_int (a * b) -> Some a *! Some b = Some (a * b).
Proof. intros Hz. now apply int_result_ok. Qed.

Lemma div_ok (a b : Z) :
  b <> 0 -> is_int (Z.quot a b) -> Some a /! Some b = Some (Z.quot a b).
Proof.
  intros Hb Hz. unfold int_div, bind.
  destruct (decide (b = 0)); [contradiction |]. now apply int_result_ok.
Qed.

Lemma mod_ok (a b : Z) :
  b <> 0 -> is_int (Z.quot a b) -> Some a %! Some b = Some (Z.rem a b).
Proof.
  intros Hb Hz. unfold int_mod, bind.
  destruct (decide (b = 0)); [contradiction |]. now rewrite int_result_ok.
Qed.

(** On the non-negative operands of the mappers truncation is flooring. *)
Lemma div_nonneg_ok (a b : Z) :
  0 <= a -> 0 < b -> is_int a -> Some a /! Some b = Some (a / b).
Proof.
  intros Ha Hb Hz. rewrite div_ok.
  - now rewrite Z.quot_div_nonneg.
  - lia.
  - rewrite Z.quot_div_nonneg by lia.
    assert (0 <= a / b <= a).
    { split; [apply Z.div_pos; lia | apply Z.div_le_upper_bound; [lia | nia]]. }
    int_bounds.
Qed.

Lemma mod_nonneg_ok (a b : Z) :
  0 <= a -> 0 < b -> is_int a -> Some a %! Some b = Some (a mod b).
Proof.
  intros Ha Hb Hz. rewrite mod_ok.
  - now rewrite Z.rem_mod_nonneg.
  - lia.
  - rewrite Z.quot_div_nonneg by lia.
    assert (0 <= a / b <= a).
    { split; [apply Z.div_pos; lia | apply Z.div_le_upper_bound; [lia | nia]]. }
    int_bounds.
Qed.

(** Conversely, a defined result tells what was computed. *)
Lemma bind_Some {A B : Type} (c : option A) (k : A -> option B) (r : B) :
  bind c k = Some r -> exists a, c = Some a /\ k a = Some r.
Proof. destruct c as [a |]; [eauto | discriminate]. Qed.

Lemma int_result_Some (z r : Z) : int_result z = Some r -> r = z /\ is_int z.
Proof.
  unfold int_result. destruct (decide (is_int z)); [| discriminate].
  intros [= <-]. auto.
Qed.

Lemma add_Some (a b r : Z) :
  Some a +! Some b = Some r -> r = a + b /\ is_int (a + b).
Proof. apply int_result_Some. Qed.

Lemma mul_Some (a b r : Z) :
  Some a *! Some b = Some r -> r = a * b /\ is_int (a * b).
Proof. apply int_result_Some. Qed.

Lemma div_Some (a b r : Z) :
  Some a /! Some b = Some r -> r = Z.quot a b /\ b <> 0 /\ is_int (Z.quot a b).
Proof.
  unfold int_div, bind. destruct (decide (b = 0)); [discriminate |].
  intros Hr. apply int_result_Some in Hr. tauto.
Qed.

Lemma mod_Some (a b r : Z) :
  Some a %! Some b = Some r -> r = Z.rem a b /\ b <> 0 /\ is_int (Z.quot a b).
Proof.
  unfold int_mod, bind. destruct (decide (b = 0)); [discriminate |].
  destruct (int_result _) as [q |] eqn:Hq; [| discriminate].
  apply int_result_Some in Hq. intros [= <-]. tauto.
Qed.

Lemma lit_eq (z : Z) : lit z = Some z.
Proof. reflexivity. Qed.

(** Rewrites the next operators whose results are seen to be in range. *)
Ltac int_ops :=
  unfold lit;
  repeat progress
    (repeat first
       [ rewrite add_ok by int_bounds
       | rewrite sub_ok by int_bounds
       | rewrite mul_ok by int_bounds
       | rewrite div_nonneg_ok by int_bounds
       | rewrite mod_nonneg_ok by int_bounds ];
     cbn [bind]).

(** ** Rotate *)

(** C2: configured with 0, 90, 180 or 270, Rotate reports the matrix size,
    swapped for 90 and 270, and maps a visible (x, y) to (x, y),
    (W - y - 1, x), (W - x - 1, H - y - 1) and (y, H - x - 1). *)
Theorem Rotate_four_angles :
  forall (m0 : RotatePixelMapper.t) (chain parallel W H : Z),
    is_int W -> is_int H ->
    let configure param :=
      RotatePixelMapper.SetParameters m0 chain parallel (Some param) in
    let rot theta := {| RotatePixelMapper.angle_ := theta |} in
    (configure "0"%string = Some (true, rot 0) /\
     configure "90"%string = Some (true, rot 90) /\
     configure "180"%string = Some (true, rot 180) /\
     configure "270"%string = Some (true, rot 270)) /\
    (GetSizeMapping (rot 0) W H = Some (true, (W, H)) /\
     GetSizeMapping (rot 90) W H = Some (true, (H, W)) /\
     GetSizeMapping (rot 180) W H = Some (true, (W, H)) /\
     GetSizeMapping (rot 270) W H = Some (true, (H, W))) /\
    (forall x y out, 0 <= x < W -> 0 <= y < H ->
       MapVisibleToMatrix (rot 0) W H x y out = Some (x, y)) /\
    (forall x y out, 0 <= x < H -> 0 <= y < W ->
       MapVisibleToMatrix (rot 90) W H x y out = Some (W - y - 1, x)) /\
    (forall x y out, 0 <= x < W -> 0 <= y < H ->
       MapVisibleToMatrix (rot 180) W H x y out
       = Some (W - x - 1, H - y - 1)) /\
    (forall x y out, 0 <= x < H -> 0 <= y < W ->
       MapVisibleToMatrix (rot 270) W H x y out = Some (y, H - x - 1)).
Proof.
  intros m0 chain parallel W H HW HH configure rot.
  split; [repeat split; reflexivity |].
  split; [repeat split; reflexivity |].
  repeat split; intros x y out Hx Hy; cbn;
    unfold RotatePixelMapper.MapVisibleToMatrix; cbn; int_ops; reflexivity.
Qed.

Lemma Rotate_four_angles_witness :
  MapVisibleToMatrix {| RotatePixelMapper.angle_ := 90 |} 64 32 3 5 (-1, -1)
  = Some (64 - 5 - 1, 3).
Proof.
  refine (proj1 (proj2 (proj2 (proj2
    (Rotate_four_angles RotatePixelMapper.new 1 1 64 32 _ _)))) 3 5 _ _ _);
    unfold is_int, INT_MIN, INT_MAX; lia.
Defined.

(** Every accepted parameter leaves a multiple of 90 strictly between
    -360 and 360 in [angle_]. *)
Lemma Rotate_accepted_angle (m0 m : RotatePixelMapper.t) chain parallel
    param :
  RotatePixelMapper.SetParameters m0 chain parallel param = Some (true, m) ->
  RotatePixelMapper.angle_ m
    ∈ [-270; -180; -90; 0; 90; 180; 270].
Proof.
  unfold RotatePixelMapper.SetParameters.
  destruct param as [param |]; [| intros [= <-]; cbn; in_list; lia].
  destruct (decide (strlen param = 0)); [intros [= <-]; cbn; in_list; lia |].
  destruct (strtol param) as [v errpos].
  destruct errpos; [| discriminate].
  generalize (int_of_long v). intros a. unfold lit.
  intros Hm. apply bind_Some in Hm as (r & Hr & Hm).
  apply mod_Some in Hr as (-> & _ & _).
  destruct (decide (_ <> 0)) as [| Hr]; [discriminate |].
  apply bind_Some in Hm as (a' & Ha' & [= <-]).
  destruct (Some a +! Some 360) as [b |] eqn:Hb; [| discriminate].
  apply add_Some in Hb as (-> & _). apply mod_Some in Ha' as (-> & _ & _).
  cbn [RotatePixelMapper.angle_].
  assert (Hr' : Z.rem a 90 = 0) by lia.
  assert (Z.rem (a + 360) 360 = -270 \/ Z.rem (a + 360) 360 = -180 \/
          Z.rem (a + 360) 360 = -90 \/ Z.rem (a + 360) 360 = 0 \/
          Z.rem (a + 360) 360 = 90 \/ Z.rem (a + 360) 360 = 180 \/
          Z.rem (a + 360) 360 = 270) as Hcases
    by (Z.quot_rem_to_equations; lia).
  in_list. lia.
Qed.

(** When no [case] matches, the output cells keep what they held. *)
Lemma Rotate_other_angle (m : RotatePixelMapper.t) W H x y out :
  RotatePixelMapper.angle_ m ∉ [0; 90; 180; 270] ->
  MapVisibleToMatrix m W H x y out = Some out.
Proof.
  intros Hm. cbn. unfold RotatePixelMapper.MapVisibleToMatrix.
  repeat (destruct (decide _) as [e |];
          [exfalso; apply Hm; rewrite e; in_list; lia |]).
  reflexivity.
Qed.

(** X17: from -360 upwards the stored angle is the canonical one. *)
Lemma Rotate_normalises_from_minus_360 (m0 : RotatePixelMapper.t)
    chain parallel (param : string) (v : Z) :
  strlen param <> 0 -> strtol param = (v, EmptyString) ->
  Z.rem (int_of_long v) 90 = 0 ->
  -360 <= int_of_long v <= INT_MAX - 360 ->
  RotatePixelMapper.SetParameters m0 chain parallel (Some param)
  = Some (true, {| RotatePixelMapper.angle_ := int_of_long v mod 360 |}).
Proof.
  intros Hlen Hv Hrem Hrange. unfold RotatePixelMapper.SetParameters.
  destruct (decide (strlen param = 0)); [contradiction |]. rewrite Hv.
  unfold lit. rewrite mod_ok, Hrem
    by (try lia; Z.quot_rem_to_equations; int_bounds).
  cbn [bind]. destruct (decide (0 <> 0)); [lia |]. int_ops.
  do 3 f_equal. rewrite <- (Z.mod_add (int_of_long v) 1 360) by lia.
  reflexivity.
Qed.

(** X18: below -360 the stored angle stays negative, unless it is 0. *)
Lemma Rotate_below_minus_360 (m0 : RotatePixelMapper.t)
    chain parallel (param : string) (v : Z) :
  strlen param <> 0 -> strtol param = (v, EmptyString) ->
  Z.rem (int_of_long v) 90 = 0 ->
  INT_MIN <= int_of_long v < -360 ->
  exists m,
    RotatePixelMapper.SetParameters m0 chain parallel (Some param)
    = Some (true, m) /\
    RotatePixelMapper.angle_ m ∈ [-270; -180; -90; 0].
Proof.
  intros Hlen Hv Hrem Hrange. unfold RotatePixelMapper.SetParameters.
  destruct (decide (strlen param = 0)); [contradiction |]. rewrite Hv.
  unfold lit. rewrite mod_ok, Hrem
    by (try lia; Z.quot_rem_to_equations; int_bounds).
  cbn [bind]. destruct (decide (0 <> 0)); [lia |].
  rewrite add_ok, mod_ok
    by (try lia; Z.quot_rem_to_equations; int_bounds).
  cbn [bind]. eexists. split; [reflexivity |]. cbn. in_list.
  Z.quot_rem_to_equations. lia.
Qed.

(** C3: the parameter "-450" is accepted but leaves [angle_] at -90, not at
    270: no case of the mapping matches and no coordinate is written,
    while "270" maps (3, 5) of a 64x32 matrix to (5, 28). *)
Theorem Rotate_minus_450 :
  let rot theta := {| RotatePixelMapper.angle_ := theta |} in
  SetParameters RotatePixelMapper.new 1 1 (Some "-450"%string)
  = Some (true, rot (-90)) /\
  SetParameters RotatePixelMapper.new 1 1 (Some "270"%string)
  = Some (true, rot 270) /\
  MapVisibleToMatrix (rot (-90)) 64 32 3 5 (-1, -1) = Some (-1, -1) /\
  MapVisibleToMatrix (rot 270) 64 32 3 5 (-1, -1) = Some (5, 28) /\
  GetSizeMapping (rot (-90)) 64 32 = Some (true, (32, 64)) /\
  ~ size_and_mapping_agree (rot (-90)) 64 32.
Proof.
  repeat (split; [reflexivity |]). intros Hagree.
  destruct (Hagree 32 64 eq_refl) as [Hin _].
  destruct (Hin 3 5 (-1, -1)) as (mx & my & Hmap & Hmx & _); [lia | lia |].
  injection Hmap as <- <-. lia.
Qed.

(** ** Mirror *)

(** X19: what [SetParameters] accepts: only the first character is
    examined. *)
Lemma Mirror_SetParameters_accepts (m : MirrorPixelMapper.t) chain parallel
    param :
  exists ok m',
    MirrorPixelMapper.SetParameters m chain parallel param = Some (ok, m') /\
    (ok = true <->
     param = None \/ param = Some EmptyString \/
     exists c rest, param = Some (String c rest) /\ mirror_axis_char c).
Proof.
  unfold MirrorPixelMapper.SetParameters, mirror_axis_char.
  destruct param as [[| c rest] |].
  - eexists _, _. split; [reflexivity |]. intuition.
  - destruct (decide (c = "V"%char \/ c = "v"%char)) as [HV | HV].
    { eexists _, _. split; [reflexivity |]. split; [| reflexivity].
      intros _. right; right. exists c, rest. split; [reflexivity |].
      in_list. tauto. }
    destruct (decide (c = "H"%char \/ c = "h"%char)) as [HH | HH].
    { eexists _, _. split; [reflexivity |]. split; [| reflexivity].
      intros _. right; right. exists c, rest. split; [reflexivity |].
      in_list. tauto. }
    eexists _, _. split; [reflexivity |]. split; [discriminate |].
    intros [| [| (c' & rest' & [= <- <-] & Hc)]]; try discriminate.
    in_list. tauto.
  - eexists _, _. split; [reflexivity |]. intuition.
Qed.

(** C4: a parameter of several characters is not rejected: "VV" and "Hello"
    configure the mapper as "V" and "H" do. *)
Theorem Mirror_accepts_longer_parameters :
  SetParameters MirrorPixelMapper.new 1 1 (Some "VV"%string)
  = Some (true, {| MirrorPixelMapper.horizontal_ := false |}) /\
  SetParameters MirrorPixelMapper.new 1 1 (Some "Hello"%string)
  = Some (true, {| MirrorPixelMapper.horizontal_ := true |}) /\
  SetParameters MirrorPixelMapper.new 1 1 (Some "V"%string)
  = Some (true, {| MirrorPixelMapper.horizontal_ := false |}) /\
  SetParameters MirrorPixelMapper.new 1 1 (Some "X"%string)
  = Some (false, MirrorPixelMapper.new).
Proof. repeat split; reflexivity. Qed.

(** C5: Mirror keeps the size, and mapping an in-range coordinate twice
    gives it back, for either axis. *)
Theorem Mirror_involution :
  forall (m : MirrorPixelMapper.t) (W H x y : Z) (out out' : Z * Z),
    is_int W -> is_int H -> 0 <= x < W -> 0 <= y < H ->
    GetSizeMapping m W H = Some (true, (W, H)) /\
    exists mx my,
      MapVisibleToMatrix m W H x y out = Some (mx, my) /\
      (0 <= mx < W /\ 0 <= my < H) /\
      MapVisibleToMatrix m W H mx my out' = Some (x, y).
Proof.
  intros [[|]] W H x y out out' HW HH Hx Hy; (split; [reflexivity |]); cbn;
    unfold MirrorPixelMapper.MapVisibleToMatrix; cbn; int_ops.
  - exists (W - 1 - x), y. split; [reflexivity |]. split; [lia |].
    int_ops. do 2 f_equal. lia.
  - exists x, (H - 1 - y). split; [reflexivity |]. split; [lia |].
    int_ops. do 2 f_equal. lia.
Qed.

Lemma Mirror_involution_witness :
  GetSizeMapping {| MirrorPixelMapper.horizontal_ := true |} 64 32
  = Some (true, (64, 32)) /\
  exists mx my,
    MapVisibleToMatrix {| MirrorPixelMapper.horizontal_ := true |}
      64 32 3 5 (-1, -1) = Some (mx, my) /\
    (0 <= mx < 64 /\ 0 <= my < 32) /\
    MapVisibleToMatrix {| MirrorPixelMapper.horizontal_ := true |}
      64 32 mx my (-1, -1) = Some (3, 5).
Proof.
  apply (Mirror_involution {| MirrorPixelMapper.horizontal_ := true |}
           64 32 3 5 (-1, -1) (-1, -1));
    unfold is_int, INT_MIN, INT_MAX; lia.
Defined.

(** ** U-mapper *)

(** C6: U-mapper rejects exactly the chains below 2 and the odd ones, and
    an accepted configuration stores [parallel]; chain 4 with parallel 1 is
    accepted and turns a 256x32 matrix into a 128x64 canvas; the mapper
    configured with [parallel] refuses exactly the heights that [parallel]
    does not divide. *)
Theorem UArrangement_configuration :
  (forall (m : UArrangementMapper.t) (chain parallel : Z) param,
     is_int chain ->
     exists ok : bool,
       SetParameters m chain parallel param
       = Some (ok, if ok then {| UArrangementMapper.parallel_ := parallel |}
                   else m) /\
       (ok = false <-> chain < 2 \/ Z.odd chain = true)) /\
  SetParameters UArrangementMapper.new 3 1 (Some ""%string)
  = Some (false, UArrangementMapper.new) /\
  SetParameters UArrangementMapper.new 4 1 (Some ""%string)
  = Some (true, {| UArrangementMapper.parallel_ := 1 |}) /\
  GetSizeMapping {| UArrangementMapper.parallel_ := 1 |} 256 32
  = Some (true, (128, 64)) /\
  (forall (m0 m : UArrangementMapper.t) (chain parallel : Z) param (W H : Z),
     SetParameters m0 chain parallel param = Some (true, m) ->
     is_int W -> is_int (2 * H) -> parallel <> 0 ->
     exists ok : bool,
       GetSizeMapping m W H = Some (ok, (Z.quot W 64 * 32, 2 * H)) /\
       (ok = false <-> Z.rem H parallel <> 0)).
Proof.
  split; [| split; [reflexivity |];
            split; [reflexivity |]; split; [reflexivity |]].
  - intros m chain parallel param Hc. cbn.
    unfold UArrangementMapper.SetParameters.
    destruct (decide (chain < 2)) as [Hlt | Hge].
    { exists false. split; [reflexivity |]. tauto. }
    int_ops. rewrite <- Z.bit0_mod, Z.bit0_odd.
    destruct (Z.odd chain); cbn.
    + exists false. split; [reflexivity |]. tauto.
    + exists true. split; [reflexivity |].
      split; [discriminate | intros [|]; [lia | discriminate]].
  - intros m0 m chain parallel param W H Hconf HW HH Hp.
    assert (m = {| UArrangementMapper.parallel_ := parallel |}) as ->.
    { cbn in Hconf. unfold UArrangementMapper.SetParameters in Hconf.
      destruct (decide (chain < 2)); [discriminate |].
      apply bind_Some in Hconf as (r & _ & Hconf).
      destruct (decide (r <> 0)); [discriminate |]. now injection Hconf. }
    cbn. unfold UArrangementMapper.GetSizeMapping. cbn.
    unfold lit. rewrite (div_ok W 64), mul_ok, mul_ok, mod_ok; cbn [bind];
      try (Z.quot_rem_to_equations; int_bounds).
    + destruct (decide (Z.rem H parallel <> 0)) as [Hrem | Hrem].
      * exists false. split; [reflexivity |]. tauto.
      * exists true. split; [reflexivity |].
        split; [discriminate | contradiction].
    + assert (Z.abs (Z.quot H parallel) <= Z.abs H).
      { rewrite <- (Z.quot_abs H parallel) by lia.
        apply Z.quot_le_upper_bound;
          lia || (pose proof (Z.abs_nonneg H); nia). }
      int_bounds.
Qed.

Lemma UArrangement_configuration_witness :
  (exists ok : bool,
     SetParameters UArrangementMapper.new 6 2 None
     = Some (ok, if ok then {| UArrangementMapper.parallel_ := 2 |}
                 else UArrangementMapper.new) /\
     (ok = false <-> 6 < 2 \/ Z.odd 6 = true)) /\
  (exists ok : bool,
     GetSizeMapping {| UArrangementMapper.parallel_ := 3 |} 256 32
     = Some (ok, (Z.quot 256 64 * 32, 2 * 32)) /\
     (ok = false <-> Z.rem 32 3 <> 0)).
Proof.
  split.
  - apply (proj1 UArrangement_configuration). int_bounds.
  - apply (proj2 (proj2 (proj2 (proj2 UArrangement_configuration)))
             UArrangementMapper.new {| UArrangementMapper.parallel_ := 3 |}
             4 3 None 256 32);
      try reflexivity; try int_bounds; discriminate.
Defined.

(** ** V-mapper: configuration *)

Lemma tolower_Z (c : ascii) :
  tolower c = "z"%char <-> c = "Z"%char \/ c = "z"%char.
Proof.
  destruct c as [[] [] [] [] [] [] [] []]; vm_compute;
    split; (intros [ | ] || intros); (discriminate || auto).
Qed.

Lemma tolower_code_0 (c : ascii) :
  char_code (tolower c) = 0 -> c = "000"%char.
Proof.
  destruct c as [[] [] [] [] [] [] [] []]; vm_compute;
    intros; (discriminate || reflexivity).
Qed.

Lemma tolower_code_z (c : ascii) :
  char_code (tolower c) = 122 -> tolower c = "z"%char.
Proof.
  destruct c as [[] [] [] [] [] [] [] []]; vm_compute;
    intros; (discriminate || reflexivity).
Qed.

(** Against "Z", [strcasecmp] is 0 for the two spellings of the letter. *)
Lemma strcasecmp_Z (s : string) :
  c_string s ->
  strcasecmp s "Z" = 0 <-> s = "Z"%string \/ s = "z"%string.
Proof.
  unfold c_string. intros Hs. destruct s as [| c rest]; cbn.
  { split; [discriminate | intros [|]; discriminate]. }
  change (tolower "Z") with "z"%char.
  destruct (decide (tolower c = "z"%char)) as [Hc | Hc].
  - apply tolower_Z in Hc. destruct rest as [| c' rest'].
    + split; [intros _ | reflexivity]. destruct Hc as [-> | ->]; auto.
    + split.
      * intros H0. apply tolower_code_0 in H0. subst c'.
        exfalso. apply Hs. cbn. in_list. auto.
      * intros [|]; discriminate.
  - split.
    + intros H0. exfalso. apply Hc, tolower_code_z.
      change (char_code "z") with 122 in H0. lia.
    + intros [[= -> ->] | [= -> ->]]; exfalso; apply Hc; reflexivity.
Qed.

(** C10: V-mapper accepts every chain, parallel and parameter; serpentine
    is on for the parameter "Z" or "z" and off for anything else. *)
Theorem Vertical_configure_never_fails :
  forall (m : VerticalMapper.t) (chain parallel : Z) (param : option string),
    (forall s, param = Some s -> c_string s) ->
    exists z,
      SetParameters m chain parallel param
      = Some (true, {| VerticalMapper.z_ := z;
                       VerticalMapper.chain_ := chain;
                       VerticalMapper.parallel_ := parallel |}) /\
      (z = true <-> param = Some "Z"%string \/ param = Some "z"%string).
Proof.
  intros m chain parallel param Hparam. cbn.
  unfold VerticalMapper.SetParameters. eexists. split; [reflexivity |].
  destruct param as [s |].
  - rewrite bool_decide_eq_true, strcasecmp_Z by auto.
    split; [intros [-> | ->]; auto | intros [[= ->] | [= ->]]; auto].
  - split; [discriminate | intros [|]; discriminate].
Qed.

Lemma Vertical_configure_never_fails_witness :
  exists z,
    SetParameters {| VerticalMapper.z_ := true; VerticalMapper.chain_ := 7;
                     VerticalMapper.parallel_ := 0 |} (-3) 0 (Some "Zq"%string)
    = Some (true, {| VerticalMapper.z_ := z;
                     VerticalMapper.chain_ := -3;
                     VerticalMapper.parallel_ := 0 |}) /\
    (z = true <-> Some "Zq"%string = Some "Z"%string
                  \/ Some "Zq"%string = Some "z"%string).
Proof.
  apply Vertical_configure_never_fails.
  intros s [= <-]. unfold c_string. cbn. in_list.
  intros [| [|]]; [discriminate | discriminate | assumption].
Defined.

(** ** Windmill: configuration *)

Lemma windmill_char_cases (c : ascii) :
  windmill_char c <->
  WindmillPixelMapper.is_separator c = true \/
  (c = "Z"%char \/ c = "z"%char) \/ (c = "S"%char \/ c = "s"%char).
Proof.
  unfold windmill_char, WindmillPixelMapper.is_separator.
  rewrite bool_decide_eq_true. in_list. tauto.
Qed.

(** The loop stops with [false] exactly at a character it does not know,
    and never touches [chain_] and [parallel_]. *)
Lemma scan_flags_spec (p : string) (m : WindmillPixelMapper.t) :
  exists ok m',
    WindmillPixelMapper.scan_flags m p = (ok, m') /\
    WindmillPixelMapper.chain_ m' = WindmillPixelMapper.chain_ m /\
    WindmillPixelMapper.parallel_ m' = WindmillPixelMapper.parallel_ m /\
    (ok = false <->
     exists c, c ∈ list_ascii_of_string p /\ ~ windmill_char c).
Proof.
  revert m. induction p as [| c rest IH]; intros m; cbn.
  - eexists _, _. split; [reflexivity |]. repeat split; try discriminate.
    intros (c & Hc & _). in_list. contradiction.
  - pose proof (windmill_char_cases c) as Hcases.
    destruct (WindmillPixelMapper.is_separator c) eqn:Hsep;
      [| destruct (decide (c = "Z"%char \/ c = "z"%char)) as [HZ | HZ];
         [| destruct (decide (c = "S"%char \/ c = "s"%char)) as [HS | HS]]].
    4: { eexists _, _. split; [reflexivity |]. repeat split; try discriminate.
         exists c. split; [in_list; auto |]. rewrite Hcases.
         intros [| [|]]; [discriminate | contradiction | contradiction]. }
    all: match goal with
         | |- context [WindmillPixelMapper.scan_flags ?m1 _] =>
             destruct (IH m1) as (ok & m' & -> & Hch & Hpar & Hok)
         end;
      exists ok, m'; split; [reflexivity |];
      split; [exact Hch |]; split; [exact Hpar |];
      rewrite Hok; split;
      [ intros (c' & Hc' & Hbad); exists c'; split; [in_list; auto | exact Hbad]
      | intros (c' & Hc' & Hbad); exists c'; split; [| exact Hbad];
        rewrite elem_of_cons in Hc'; destruct Hc' as [-> | Hc']; [| exact Hc'];
        exfalso; apply Hbad, Hcases; auto ].
Qed.

(** C7: Windmill is rejected exactly when parallel is not 2 or the
    parameter holds a character that is neither a flag nor a separator;
    parallel 1 fails, and parallel 2, chain 2 with "Z" succeeds. *)
Theorem Windmill_configuration :
  (forall (m : WindmillPixelMapper.t) (chain parallel : Z) param,
     exists ok m',
       SetParameters m chain parallel param = Some (ok, m') /\
       (ok = false <->
        parallel <> 2 \/
        exists c, c ∈ param_chars param /\ ~ windmill_char c)) /\
  (exists m', SetParameters WindmillPixelMapper.new 2 1 (Some "Z"%string)
              = Some (false, m')) /\
  SetParameters WindmillPixelMapper.new 2 2 (Some "Z"%string)
  = Some (true, {| WindmillPixelMapper.z_ := true;
                   WindmillPixelMapper.swap_lr_ := false;
                   WindmillPixelMapper.chain_ := 2;
                   WindmillPixelMapper.parallel_ := 2 |}) /\
  GetSizeMapping {| WindmillPixelMapper.z_ := true;
                    WindmillPixelMapper.swap_lr_ := false;
                    WindmillPixelMapper.chain_ := 2;
                    WindmillPixelMapper.parallel_ := 2 |} 128 64
  = Some (true, (128, 64)).
Proof.
  split; [| split; [eexists; reflexivity |]; split; reflexivity].
  intros m chain parallel param. cbn.
  unfold WindmillPixelMapper.SetParameters. cbn.
  destruct (decide (parallel <> 2)) as [Hp | Hp].
  { eexists _, _. split; [reflexivity |]. tauto. }
  destruct param as [p |]; cbn [param_chars].
  - match goal with
    | |- context [WindmillPixelMapper.scan_flags ?m1 p] =>
        destruct (scan_flags_spec p m1) as (ok & m' & -> & _ & _ & Hok)
    end.
    exists ok, m'. split; [reflexivity |]. rewrite Hok. tauto.
  - eexists _, _. split; [reflexivity |].
    split; [discriminate |].
    intros [| (c & Hc & _)]; [contradiction | in_list; contradiction].
Qed.

(** ** The registry and the lookup *)

(** What [FindPixelMapper] does once the name is found. *)
Lemma FindPixelMapper_found v singleton name chain parallel parameter mapper :
  GetMapperMap v singleton !! lower_name name = Some mapper ->
  FindPixelMapper v singleton name chain parallel parameter
  = ('(ok, mapper') <- object_configure mapper chain parallel parameter ;
     Some (if ok : bool then Some mapper' else None,
           Some (<[lower_name name := mapper']> (GetMapperMap v singleton)))).
Proof.
  intros Hfound. unfold FindPixelMapper. rewrite Hfound.
  destruct (object_configure _ _ _ _) as [[[|] mapper'] |]; reflexivity.
Qed.

Lemma FindPixelMapper_unknown v singleton name chain parallel parameter :
  GetMapperMap v singleton !! lower_name name = None ->
  FindPixelMapper v singleton name chain parallel parameter
  = Some (None, Some (GetMapperMap v singleton)).
Proof. intros Hnone. unfold FindPixelMapper. now rewrite Hnone. Qed.

Lemma RegisterPixelMapper_lookup v singleton mapper name :
  lower_name name = lower_name (object_name mapper) ->
  GetMapperMap v (RegisterPixelMapper v singleton mapper) !! lower_name name
  = Some mapper.
Proof.
  intros ->. cbn. unfold RegisterPixelMapperInternal.
  apply lookup_insert_eq.
Qed.

(** C8: a mapper registered under the name "Rotate" is the one the lookup
    configures for the names "rotate", "ROTATE" and "RoTaTe", and for any
    name with the same lower-cased spelling; a later registration whose
    name lower-cases to the same key replaces it. *)
Theorem registry_is_case_insensitive :
  forall v singleton (mapper : Object),
    object_name mapper = "Rotate"%string ->
    let registered := RegisterPixelMapper v singleton mapper in
    (forall name chain parallel parameter,
       lower_name name = "rotate"%string ->
       GetMapperMap v registered !! lower_name name = Some mapper /\
       FindPixelMapper v registered name chain parallel parameter
       = ('(ok, mapper') <- object_configure mapper chain parallel parameter ;
          Some (if ok : bool then Some mapper' else None,
                Some (<["rotate"%string := mapper']>
                        (GetMapperMap v registered))))) /\
    (lower_name "rotate" = "rotate" /\ lower_name "ROTATE" = "rotate" /\
     lower_name "RoTaTe" = "rotate")%string /\
    (forall later : Object,
       lower_name (object_name later) = "rotate"%string ->
       RegisterPixelMapper v registered later
       = RegisterPixelMapper v singleton later /\
       forall name, lower_name name = "rotate"%string ->
         GetMapperMap v (RegisterPixelMapper v registered later)
           !! lower_name name = Some later).
Proof.
  intros v singleton mapper Hname registered.
  assert (Hfind : forall name, lower_name name = "rotate"%string ->
            GetMapperMap v registered !! lower_name name = Some mapper).
  { intros name Hlow. apply RegisterPixelMapper_lookup.
    now rewrite Hname, Hlow. }
  split; [| split; [repeat split; reflexivity |]].
  - intros name chain parallel parameter Hlow.
    split; [now apply Hfind |].
    rewrite (FindPixelMapper_found _ _ _ _ _ _ mapper) by now apply Hfind.
    now rewrite Hlow.
  - intros later Hlater. split.
    + unfold registered, RegisterPixelMapper, RegisterPixelMapperInternal.
      cbn. rewrite Hlater, Hname. cbn. now rewrite insert_insert_eq.
    + intros name Hlow. apply RegisterPixelMapper_lookup.
      now rewrite Hlater, Hlow.
Qed.

Lemma registry_is_case_insensitive_witness :
  GetMapperMap
    {| VerticalMapper.z_ := false; VerticalMapper.chain_ := 0;
       VerticalMapper.parallel_ := 0 |}
    (RegisterPixelMapper
       {| VerticalMapper.z_ := false; VerticalMapper.chain_ := 0;
          VerticalMapper.parallel_ := 0 |}
       None (object {| RotatePixelMapper.angle_ := 180 |}))
    !! lower_name "RoTaTe"
  = Some (object {| RotatePixelMapper.angle_ := 180 |}).
Proof.
  refine (proj1 (proj1 (registry_is_case_insensitive _ None _ _)
                   "RoTaTe"%string 1 1 None _)); reflexivity.
Defined.

(** C9: the lookup returns NULL exactly when the lower-cased name has no
    entry or the entry's [SetParameters] returns false; for an unknown name
    such as "doesnotexist" the map is left as it was; a mapper is returned
    only after its [SetParameters] returned true, and it is the object the
    map holds. *)
Theorem FindPixelMapper_null_cases :
  forall v singleton name chain parallel parameter,
    let registry := GetMapperMap v singleton in
    (registry !! lower_name name = None ->
     FindPixelMapper v singleton name chain parallel parameter
     = Some (None, Some registry)) /\
    (forall mapper ok mapper',
       registry !! lower_name name = Some mapper ->
       object_configure mapper chain parallel parameter
       = Some (ok, mapper') ->
       exists registry',
         FindPixelMapper v singleton name chain parallel parameter
         = Some (if ok : bool then Some mapper' else None, Some registry') /\
         registry' !! lower_name name = Some mapper') /\
    (forall result singleton',
       FindPixelMapper v singleton name chain parallel parameter
       = Some (result, singleton') ->
       (result = None <->
        registry !! lower_name name = None \/
        exists mapper mapper',
          registry !! lower_name name = Some mapper /\
          object_configure mapper chain parallel parameter
          = Some (false, mapper'))) /\
    FindPixelMapper v None "doesnotexist" 1 1 (Some ""%string)
    = Some (None, Some (CreateMapperMap v)).
Proof.
  intros v singleton name chain parallel parameter registry.
  split; [apply FindPixelMapper_unknown |].
  split; [| split].
  - intros mapper ok mapper' Hfound Hconf.
    rewrite (FindPixelMapper_found _ _ _ _ _ _ mapper), Hconf by exact Hfound.
    cbn. eexists. split; [reflexivity |]. apply lookup_insert_eq.
  - intros result singleton'.
    destruct (registry !! lower_name name) as [mapper |] eqn:Hfound.
    + rewrite (FindPixelMapper_found _ _ _ _ _ _ mapper) by exact Hfound.
      destruct (object_configure _ _ _ _) as [[[|] mapper'] |] eqn:Hconf;
        cbn; [| | discriminate]; intros [= <- <-].
      * split; [discriminate |].
        intros [| (m1 & m2 & [= <-] & Hc)]; congruence.
      * split; [| reflexivity]. intros _. right. eauto.
    + rewrite FindPixelMapper_unknown by exact Hfound.
      intros [= <- <-]. tauto.
  - apply FindPixelMapper_unknown. reflexivity.
Qed.

Lemma FindPixelMapper_null_cases_witness :
  FindPixelMapper
    {| VerticalMapper.z_ := false; VerticalMapper.chain_ := 0;
       VerticalMapper.parallel_ := 0 |} None "nosuch" 2 1 None
  = Some (None,
          Some (GetMapperMap
                  {| VerticalMapper.z_ := false; VerticalMapper.chain_ := 0;
                     VerticalMapper.parallel_ := 0 |} None)) /\
  exists registry',
    FindPixelMapper
      {| VerticalMapper.z_ := false; VerticalMapper.chain_ := 0;
         VerticalMapper.parallel_ := 0 |} None "MIRROR" 2 1 (Some "x"%string)
    = Some (None, Some registry') /\
    registry' !! lower_name "MIRROR" = Some (object MirrorPixelMapper.new).
Proof.
  split.
  - refine (proj1 (FindPixelMapper_null_cases _ None "nosuch" 2 1 None) _).
    reflexivity.
  - refine (proj1 (proj2 (FindPixelMapper_null_cases _ None "MIRROR" 2 1
                            (Some "x"%string)))
              (object MirrorPixelMapper.new) false
              (object MirrorPixelMapper.new) _ _); reflexivity.
Defined.

(** ** Agreement of size and mapping *)

(** A coordinate below [n * d] lies in one of [n] blocks of width [d]. *)
Lemma block_split (x d n : Z) :
  0 < d -> 0 <= x < n * d ->
  x = x / d * d + x mod d /\ 0 <= x / d < n /\ 0 <= x mod d < d.
Proof.
  intros Hd Hx. pose proof (Z.div_mod x d ltac:(lia)) as Hdm.
  pose proof (Z.mod_pos_bound x d Hd) as Hm.
  repeat split; try lia.
  - apply Z.div_pos; lia.
  - apply Z.div_lt_upper_bound; lia.
Qed.

(** Block [i] and offset [r] name a coordinate below [n * d], and only one. *)
Lemma block_bound (i r d n : Z) :
  0 <= i < n -> 0 <= r < d -> 0 <= i * d + r < n * d.
Proof. intros Hi Hr. nia. Qed.

Lemma block_unique (i1 r1 i2 r2 d : Z) :
  0 <= r1 < d -> 0 <= r2 < d -> i1 * d + r1 = i2 * d + r2 ->
  i1 = i2 /\ r1 = r2.
Proof. intros H1 H2 Heq. assert (i1 = i2) by nia. subst. lia. Qed.

(** Rotate and Mirror agree on every matrix. *)
Lemma Rotate_agrees (m : RotatePixelMapper.t) (W H : Z) :
  is_int W -> is_int H ->
  RotatePixelMapper.angle_ m ∈ [0; 90; 180; 270] ->
  size_and_mapping_agree m W H.
Proof.
  intros HW HH Hm vw vh. destruct m as [a]. cbn in *.
  unfold RotatePixelMapper.GetSizeMapping,
    RotatePixelMapper.MapVisibleToMatrix.
  cbn [RotatePixelMapper.angle_].
  in_list. destruct Hm as [-> | [-> | [-> | [-> | []]]]]; cbn;
    intros [= <- <-]; split.
  all: try (intros x y out Hx Hy; int_ops; eexists _, _;
            split; [reflexivity | lia]).
  all: intros x1 y1 x2 y2 out Hx1 Hy1 Hx2 Hy2; int_ops; intros [= ? ?]; lia.
Qed.

Lemma Mirror_agrees (m : MirrorPixelMapper.t) (W H : Z) :
  is_int W -> is_int H -> size_and_mapping_agree m W H.
Proof.
  intros HW HH vw vh. destruct m as [[|]]; cbn;
    unfold MirrorPixelMapper.GetSizeMapping,
      MirrorPixelMapper.MapVisibleToMatrix;
    cbn; intros [= <- <-]; split.
  all: try (intros x y out Hx Hy; int_ops; eexists _, _;
            split; [reflexivity | lia]).
  all: intros x1 y1 x2 y2 out Hx1 Hy1 Hx2 Hy2; int_ops; intros [= ? ?]; lia.
Qed.

(** The width of [n] panels divided by [n] is the panel's width. *)
Lemma div_mul_ok (n d : Z) :
  0 < n -> 0 <= d -> is_int (n * d) -> Some (n * d) /! Some n = Some d.
Proof.
  intros Hn Hd Hi. rewrite div_nonneg_ok by (try int_bounds; nia).
  f_equal. rewrite Z.mul_comm. apply Z.div_mul. lia.
Qed.

(** U-mapper: the slab and the row of a visible coordinate, and where it
    goes: right half for the upper row of the slab, mirrored for the lower. *)
Lemma UArrangement_map (parallel ph W x y : Z) (out : Z * Z) :
  0 < parallel -> 0 <= W -> is_int W -> is_int (2 * (parallel * ph)) ->
  0 <= x < Z.quot W 64 * 32 -> 0 <= y < 2 * (parallel * ph) ->
  let slab := y / (2 * ph) in
  let row := y mod (2 * ph) in
  (0 <= slab < parallel /\ 0 <= row < 2 * ph) /\
  MapVisibleToMatrix {| UArrangementMapper.parallel_ := parallel |}
    W (parallel * ph) x y out
  = Some (if decide (row < ph)
          then (x + W / 2, slab * ph + row)
          else (W / 64 * 32 - x - 1, slab * ph + (2 * ph - row - 1))).
Proof.
  intros Hp HW0 HW HH Hx Hy slab row.
  assert (Hph : 0 < ph) by nia.
  destruct (block_split y (2 * ph) parallel) as (Hy' & Hslab & Hrow);
    [lia | lia |]. fold slab row in Hy', Hslab, Hrow.
  split; [auto |].
  rewrite Z.quot_div_nonneg in Hx by lia.
  assert (0 <= slab * ph <= (parallel - 1) * ph) by nia.
  assert (0 <= W / 64 * 32 /\ W / 64 * 32 <= W / 2 /\ 2 * (W / 2) <= W)
    by (Z.div_mod_to_equations; lia).
  assert (parallel * ph <= 2 * (parallel * ph)) by nia.
  assert (ph <= parallel * ph) by nia.
  cbn. unfold UArrangementMapper.MapVisibleToMatrix.
  cbn [UArrangementMapper.parallel_]. unfold lit.
  rewrite div_mul_ok by (try lia; int_bounds). cbn [bind].
  subst slab row. int_ops.
  destruct (decide (_ < ph)); int_ops; reflexivity.
Qed.

(** The two rows of a slab land in disjoint column ranges of one panel row. *)
Lemma UArrangement_agrees (parallel ph W : Z) :
  0 < parallel -> 0 <= ph -> 0 <= W -> is_int W -> is_int (parallel * ph) ->
  size_and_mapping_agree {| UArrangementMapper.parallel_ := parallel |}
    W (parallel * ph).
Proof.
  intros Hp Hph HW0 HW HH vw vh Hsize.
  cbn in Hsize. unfold UArrangementMapper.GetSizeMapping, lit in Hsize.
  apply bind_Some in Hsize as (vw' & Hvw & Hsize).
  apply bind_Some in Hsize as (vh' & Hvh & Hsize).
  apply bind_Some in Hsize as (r & _ & Hsize).
  destruct (decide (r <> 0)); [discriminate |]. injection Hsize as <- <-.
  apply mul_Some in Hvh as (-> & Hvh).
  rewrite div_ok, mul_ok in Hvw by (Z.quot_rem_to_equations; int_bounds).
  injection Hvw as <-.
  assert (Hin : forall x y, 0 <= x < Z.quot W 64 * 32 ->
            0 <= y < 2 * (parallel * ph) ->
            let slab := y / (2 * ph) in
            let row := y mod (2 * ph) in
            let mx := if decide (row < ph) then x + W / 2
                      else W / 64 * 32 - x - 1 in
            let my := if decide (row < ph) then slab * ph + row
                      else slab * ph + (2 * ph - row - 1) in
            0 <= mx < W /\ 0 <= my < parallel * ph).
  { intros x y Hx Hy slab row mx my.
    destruct (UArrangement_map parallel ph W x y (0, 0))
      as ((Hslab & Hrow) & _); try assumption.
    fold slab row in Hslab, Hrow.
    rewrite Z.quot_div_nonneg in Hx by lia.
    assert (0 <= slab * ph <= (parallel - 1) * ph) by nia.
    assert (0 <= W / 64 * 32 /\ W / 64 * 32 <= W / 2 /\ 2 * (W / 2) <= W)
      by (Z.div_mod_to_equations; lia).
    subst mx my. destruct (decide (row < ph)); lia. }
  split.
  - intros x y out Hx Hy.
    destruct (UArrangement_map parallel ph W x y out) as (_ & ->);
      try assumption.
    specialize (Hin x y Hx Hy). cbn zeta in Hin.
    destruct (decide (_ < ph)); eexists _, _;
      (split; [reflexivity | exact Hin]).
  - intros x1 y1 x2 y2 out Hx1 Hy1 Hx2 Hy2.
    destruct (UArrangement_map parallel ph W x1 y1 out)
      as ((Hslab1 & Hrow1) & ->); try assumption.
    destruct (UArrangement_map parallel ph W x2 y2 out)
      as ((Hslab2 & Hrow2) & ->); try assumption.
    assert (Hph' : 0 < ph) by nia.
    pose proof (Z.div_mod y1 (2 * ph) ltac:(lia)) as Hy1'.
    pose proof (Z.div_mod y2 (2 * ph) ltac:(lia)) as Hy2'.
    rewrite Z.quot_div_nonneg in Hx1, Hx2 by lia.
    assert (W / 64 * 32 <= W / 2) by (Z.div_mod_to_equations; lia).
    cbn zeta in *.
    generalize dependent (y1 / (2 * ph)).
    generalize dependent (y1 mod (2 * ph)).
    generalize dependent (y2 / (2 * ph)).
    generalize dependent (y2 mod (2 * ph)).
    intros row2 slab2 Hslab2 Hrow2 Hy2' row1 slab1 Hslab1 Hrow1 Hy1'.
    destruct (decide (row1 < ph)), (decide (row2 < ph)); intros [= Hmx Hmy];
      try lia.
    + apply block_unique in Hmy as (-> & ->); [| lia | lia]. lia.
    + apply block_unique in Hmy as (-> & Hr); [| lia | lia]. lia.
Qed.

(** V-mapper: the panel at column [x / pw], row [y / ph] of the visible
    canvas is the panel at column [y / ph], row [x / pw] of the matrix. *)
Lemma Vertical_map (z : bool) (chain parallel pw ph x y : Z) (out : Z * Z) :
  0 < chain -> 0 < parallel ->
  is_int (chain * pw) -> is_int (parallel * ph) ->
  is_int (parallel * pw) -> is_int (chain * ph) ->
  0 <= x < parallel * pw -> 0 <= y < chain * ph ->
  let flip := vertical_flip z chain (y / ph) in
  MapVisibleToMatrix
    {| VerticalMapper.z_ := z; VerticalMapper.chain_ := chain;
       VerticalMapper.parallel_ := parallel |}
    (chain * pw) (parallel * ph) x y out
  = Some (y / ph * pw + (if flip then pw - 1 - x mod pw else x mod pw),
          x / pw * ph + (if flip then ph - 1 - y mod ph else y mod ph)).
Proof.
  intros Hc Hp HW HH HW' HH' Hx Hy flip.
  assert (Hpw : 0 < pw) by nia. assert (Hph : 0 < ph) by nia.
  destruct (block_split x pw parallel) as (_ & Hcol & Hxr); [lia | lia |].
  destruct (block_split y ph chain) as (_ & Hrow & Hyr); [lia | lia |].
  assert (0 <= y / ph * pw <= (chain - 1) * pw) by nia.
  assert (0 <= x / pw * ph <= (parallel - 1) * ph) by nia.
  assert (chain <= chain * pw /\ pw <= chain * pw) by nia.
  assert (parallel <= parallel * ph /\ ph <= parallel * ph) by nia.
  assert (Echain : chain * pw / pw = chain) by (apply Z.div_mul; lia).
  assert (0 <= chain mod 2 < 2) by (apply Z.mod_pos_bound; lia).
  assert (0 <= (y / ph) mod 2 < 2) by (apply Z.mod_pos_bound; lia).
  cbn. unfold VerticalMapper.MapVisibleToMatrix.
  cbn [VerticalMapper.z_ VerticalMapper.chain_ VerticalMapper.parallel_].
  unfold lit.
  rewrite !div_mul_ok by (try lia; int_bounds). cbn [bind].
  int_ops. rewrite Echain.
  subst flip. unfold vertical_flip. destruct z; cbn [andb].
  - assert (-1 <= int_of_bool (bool_of_int (chain mod 2)) <= 1)
      by (destruct (bool_of_int _); cbn; lia).
    int_ops. destruct (bool_decide _); int_ops; reflexivity.
  - int_ops. reflexivity.
Qed.

(** The flip depends on the panel row only, so the panel and the offsets
    within it can be read back from the matrix coordinate. *)
Lemma Vertical_agrees (z : bool) (chain parallel pw ph : Z) :
  0 < chain -> 0 < parallel -> 0 <= pw -> 0 <= ph ->
  is_int (chain * pw) -> is_int (parallel * ph) ->
  size_and_mapping_agree
    {| VerticalMapper.z_ := z; VerticalMapper.chain_ := chain;
       VerticalMapper.parallel_ := parallel |}
    (chain * pw) (parallel * ph).
Proof.
  intros Hc Hp Hpw Hph HW HH vw vh Hsize.
  cbn in Hsize. unfold VerticalMapper.GetSizeMapping, lit in Hsize.
  cbn [VerticalMapper.chain_ VerticalMapper.parallel_] in Hsize.
  apply bind_Some in Hsize as (vw' & Hvw & Hsize).
  apply bind_Some in Hsize as (vh' & Hvh & [= <- <-]).
  destruct (Some (chain * pw) *! Some parallel) as [a |] eqn:Ha;
    [| discriminate].
  apply mul_Some in Ha as (-> & Ha). apply div_Some in Hvw as (-> & _ & _).
  destruct (Some (parallel * ph) *! Some chain) as [b |] eqn:Hb;
    [| discriminate].
  apply mul_Some in Hb as (-> & Hb). apply div_Some in Hvh as (-> & _ & _).
  assert (HW' : is_int (parallel * pw))
    by (unfold is_int, INT_MIN, INT_MAX in *; nia).
  assert (HH' : is_int (chain * ph))
    by (unfold is_int, INT_MIN, INT_MAX in *; nia).
  rewrite !Z.quot_div_nonneg by nia.
  replace (chain * pw * parallel) with (parallel * pw * chain) by ring.
  replace (parallel * ph * chain) with (chain * ph * parallel) by ring.
  rewrite !Z.div_mul by lia.
  split.
  - intros x y out Hx Hy. rewrite Vertical_map by assumption.
    assert (Hpw' : 0 < pw) by nia. assert (Hph' : 0 < ph) by nia.
    destruct (block_split x pw parallel) as (_ & Hcol & Hxr); [lia | lia |].
    destruct (block_split y ph chain) as (_ & Hrow & Hyr); [lia | lia |].
    eexists _, _. split; [reflexivity |].
    split; cbn zeta; destruct (vertical_flip _ _ _); apply block_bound; lia.
  - intros x1 y1 x2 y2 out Hx1 Hy1 Hx2 Hy2.
    rewrite !Vertical_map by assumption. cbn zeta.
    assert (Hpw' : 0 < pw) by nia. assert (Hph' : 0 < ph) by nia.
    destruct (block_split x1 pw parallel) as (Ex1 & _ & Hxr1); [lia | lia |].
    destruct (block_split y1 ph chain) as (Ey1 & _ & Hyr1); [lia | lia |].
    destruct (block_split x2 pw parallel) as (Ex2 & _ & Hxr2); [lia | lia |].
    destruct (block_split y2 ph chain) as (Ey2 & _ & Hyr2); [lia | lia |].
    intros [= Hmx Hmy].
    assert (Hrow : y1 / ph = y2 / ph).
    { destruct (vertical_flip z chain (y1 / ph)),
               (vertical_flip z chain (y2 / ph));
        apply block_unique in Hmx as (? & _); lia. }
    rewrite Hrow in *.
    destruct (vertical_flip z chain (y2 / ph));
      apply block_unique in Hmx as (_ & ?); try lia;
      apply block_unique in Hmy as (? & ?); try lia;
      split; nia.
Qed.

(** Windmill: the result in terms of chain position, channel and offsets. *)
Lemma Windmill_map (z s : bool) (chain pw ph x y : Z) (out : Z * Z) :
  0 < chain -> is_int (chain * pw) -> is_int (2 * ph) ->
  is_int (ph * chain * 2) ->
  0 <= x < ph * chain * 2 -> 0 <= y < pw ->
  MapVisibleToMatrix
    {| WindmillPixelMapper.z_ := z; WindmillPixelMapper.swap_lr_ := s;
       WindmillPixelMapper.chain_ := chain;
       WindmillPixelMapper.parallel_ := 2 |}
    (chain * pw) (2 * ph) x y out
  = Some (windmill_cpos chain ph x * pw + windmill_ux z chain pw ph x y,
          windmill_channel s chain ph x * ph + windmill_uy z chain ph x).
Proof.
  intros Hc HW HH Hvw Hx Hy.
  assert (Hpw : 0 < pw) by lia. assert (Hph : 0 < ph) by nia.
  destruct (block_split x ph (2 * chain)) as (_ & Hidx & Hrx); [lia | lia |].
  assert (chain <= ph * chain /\ chain <= chain * pw /\ pw <= chain * pw)
    by nia.
  unfold windmill_ux, windmill_uy, windmill_channel, windmill_flip,
    windmill_cpos, windmill_left.
  cbn. unfold WindmillPixelMapper.MapVisibleToMatrix.
  cbn [WindmillPixelMapper.z_ WindmillPixelMapper.swap_lr_
       WindmillPixelMapper.chain_ WindmillPixelMapper.parallel_].
  unfold lit.
  rewrite !div_mul_ok by (try lia; int_bounds). cbn [bind].
  int_ops.
  destruct (decide (x / ph < chain)) as [Hleft | Hright].
  - rewrite bool_decide_eq_true_2 by assumption. cbn [bool_of_int Z.eqb negb].
    assert (0 <= x / ph * pw <= (chain - 1) * pw) by nia.
    assert (0 <= (x / ph) mod 2 < 2) by (apply Z.mod_pos_bound; lia).
    int_ops.
    destruct z; cbn [andb xorb]; int_ops;
      [destruct (bool_decide _); cbn [negb] |]; destruct s; int_ops;
      f_equal; f_equal; ring.
  - rewrite bool_decide_eq_false_2 by assumption. cbn [bool_of_int Z.eqb negb].
    int_ops.
    replace (chain - 1 - (x / ph - chain)) with (2 * chain - 1 - x / ph)
      by ring.
    assert (0 <= (2 * chain - 1 - x / ph) * pw <= (chain - 1) * pw) by nia.
    assert (0 <= (2 * chain - 1 - x / ph) mod 2 < 2)
      by (apply Z.mod_pos_bound; lia).
    destruct z; cbn [andb xorb]; int_ops;
      [destruct (bool_decide _); cbn [negb] |]; destruct s; int_ops;
      f_equal; f_equal; ring.
Qed.

(** The channel tells the half, the chain position the panel, and the
    offsets the place within the panel. *)
Lemma Windmill_agrees (z s : bool) (chain pw ph : Z) :
  0 < chain -> 0 <= pw -> 0 <= ph ->
  is_int (chain * pw) -> is_int (2 * ph) ->
  size_and_mapping_agree
    {| WindmillPixelMapper.z_ := z; WindmillPixelMapper.swap_lr_ := s;
       WindmillPixelMapper.chain_ := chain;
       WindmillPixelMapper.parallel_ := 2 |}
    (chain * pw) (2 * ph).
Proof.
  intros Hc Hpw Hph HW HH vw vh Hsize.
  cbn in Hsize. unfold WindmillPixelMapper.GetSizeMapping, lit in Hsize.
  cbn [WindmillPixelMapper.chain_ WindmillPixelMapper.parallel_] in Hsize.
  rewrite !div_mul_ok in Hsize by (try lia; int_bounds). cbn [bind] in Hsize.
  apply bind_Some in Hsize as (vw' & Hvw & [= <- <-]).
  destruct (Some ph *! Some chain) as [a |] eqn:Ha; [| discriminate].
  apply mul_Some in Ha as (-> & _). apply mul_Some in Hvw as (-> & Hvw).
  assert (Hslot : forall x y, 0 <= x < ph * chain * 2 -> 0 <= y < pw ->
            (0 <= windmill_cpos chain ph x < chain /\
             0 <= windmill_ux z chain pw ph x y < pw) /\
            (0 <= windmill_channel s chain ph x < 2 /\
             0 <= windmill_uy z chain ph x < ph)).
  { intros x y Hx Hy. assert (Hph' : 0 < ph) by nia.
    destruct (block_split x ph (2 * chain)) as (_ & Hidx & Hrx); [lia | lia |].
    unfold windmill_ux, windmill_uy, windmill_channel, windmill_cpos,
      windmill_left.
    destruct (windmill_flip z chain ph x), s;
      (destruct (bool_decide_reflect (x / ph < chain)); cbn [xorb]; lia). }
  split.
  - intros x y out Hx Hy. rewrite Windmill_map by assumption.
    destruct (Hslot x y Hx Hy) as (Hmx & Hmy).
    eexists _, _. split; [reflexivity |].
    split; apply block_bound; tauto.
  - intros x1 y1 x2 y2 out Hx1 Hy1 Hx2 Hy2.
    rewrite !Windmill_map by assumption. intros [= Hmx Hmy].
    destruct (Hslot x1 y1 Hx1 Hy1) as ((_ & Hux1) & (_ & Huy1)).
    destruct (Hslot x2 y2 Hx2 Hy2) as ((_ & Hux2) & (_ & Huy2)).
    apply block_unique in Hmx as (Hcpos & Hux); [| assumption | assumption].
    apply block_unique in Hmy as (Hp & Huy); [| assumption | assumption].
    assert (Hph' : 0 < ph) by nia.
    assert (Hleft : windmill_left chain ph x1 = windmill_left chain ph x2).
    { unfold windmill_channel in Hp.
      destruct (windmill_left chain ph x1), (windmill_left chain ph x2), s;
        (reflexivity || discriminate). }
    assert (Hflip : windmill_flip z chain ph x1 = windmill_flip z chain ph x2)
      by (unfold windmill_flip; now rewrite Hcpos).
    unfold windmill_ux in Hux. unfold windmill_uy in Huy.
    unfold windmill_cpos in Hcpos. rewrite Hleft, Hflip in *.
    pose proof (Z.div_mod x1 ph ltac:(lia)) as Ex1.
    pose proof (Z.div_mod x2 ph ltac:(lia)) as Ex2.
    assert (x1 / ph = x2 / ph)
      by (destruct (windmill_left chain ph x2); lia).
    split.
    + destruct (windmill_flip z chain ph x2); nia.
    + destruct (xorb _ _); lia.
Qed.

(** A mapper that reads the matrix size only through the panel size maps
    into the whole panels, which lie within the matrix. *)
Lemma agree_within `{mapper : PixelMapper M} (m : M) (W H W' H' : Z) :
  W' <= W -> H' <= H ->
  GetSizeMapping m W H = GetSizeMapping m W' H' ->
  (forall x y out,
     MapVisibleToMatrix m W H x y out = MapVisibleToMatrix m W' H' x y out) ->
  size_and_mapping_agree m W' H' -> size_and_mapping_agree m W H.
Proof.
  intros HW HH Hsize Hmap Hagree vw vh Hvis.
  rewrite Hsize in Hvis. destruct (Hagree vw vh Hvis) as [Hin Hinj].
  split.
  - intros x y out Hx Hy. rewrite Hmap.
    destruct (Hin x y out Hx Hy) as (mx & my & E & Hmx & Hmy).
    exists mx, my. split; [exact E | lia].
  - intros x1 y1 x2 y2 out Hx1 Hy1 Hx2 Hy2. rewrite !Hmap.
    now apply Hinj.
Qed.

(** Windmill divides the matrix by [chain_] and by 2 before anything else:
    what is left over of the width and of the height is never looked at. *)
Lemma Windmill_agrees_on_any_matrix (z s : bool) (chain W H : Z) :
  0 < chain -> 0 <= W -> 0 <= H -> is_int W -> is_int H ->
  size_and_mapping_agree
    {| WindmillPixelMapper.z_ := z; WindmillPixelMapper.swap_lr_ := s;
       WindmillPixelMapper.chain_ := chain;
       WindmillPixelMapper.parallel_ := 2 |}
    W H.
Proof.
  intros Hc HW0 HH0 HW HH.
  pose proof (Z.div_mod W chain ltac:(lia)) as EW.
  pose proof (Z.mod_pos_bound W chain Hc) as RW.
  pose proof (Z.div_mod H 2 ltac:(lia)) as EH.
  pose proof (Z.mod_pos_bound H 2 ltac:(lia)) as RH.
  assert (0 <= W / chain) by (apply Z.div_pos; lia).
  assert (0 <= H / 2) by (apply Z.div_pos; lia).
  apply (agree_within _ W H (chain * (W / chain)) (2 * (H / 2)));
    [lia | lia | | |].
  - cbn. unfold WindmillPixelMapper.GetSizeMapping, lit.
    cbn [WindmillPixelMapper.chain_ WindmillPixelMapper.parallel_].
    rewrite !div_mul_ok by (try lia; int_bounds).
    rewrite !div_nonneg_ok by (try lia; int_bounds). reflexivity.
  - intros x y out. cbn. unfold WindmillPixelMapper.MapVisibleToMatrix, lit.
    cbn [WindmillPixelMapper.chain_ WindmillPixelMapper.parallel_].
    rewrite !div_mul_ok by (try lia; int_bounds).
    rewrite !div_nonneg_ok by (try lia; int_bounds). reflexivity.
  - apply Windmill_agrees; try assumption; int_bounds.
Qed.

(** U-mapper refuses a height that [parallel_] does not divide, and its
    columns stay within the width whatever the width is. *)
Lemma UArrangement_agrees_on_any_matrix (parallel W H : Z) :
  0 < parallel -> 0 <= W -> 0 <= H -> is_int W -> is_int H ->
  size_and_mapping_agree {| UArrangementMapper.parallel_ := parallel |} W H.
Proof.
  intros Hp HW0 HH0 HW HH vw vh Hsize.
  assert (Hrem : Z.rem H parallel = 0).
  { cbn in Hsize. unfold UArrangementMapper.GetSizeMapping, lit in Hsize.
    apply bind_Some in Hsize as (vw' & _ & Hsize).
    apply bind_Some in Hsize as (vh' & _ & Hsize).
    apply bind_Some in Hsize as (r & Hr & Hsize).
    apply mod_Some in Hr as (-> & _).
    destruct (decide (_ <> 0)) as [| Hz]; [discriminate |].
    cbn [UArrangementMapper.parallel_] in Hz. lia. }
  rewrite Z.rem_mod_nonneg in Hrem by lia.
  pose proof (Z.div_mod H parallel ltac:(lia)) as EH.
  assert (0 <= H / parallel) by (apply Z.div_pos; lia).
  assert (E : H = parallel * (H / parallel)) by lia.
  pose proof (UArrangement_agrees parallel (H / parallel) W) as Hagree.
  rewrite <- E in Hagree. now apply Hagree.
Qed.

(** V-mapper on a matrix that [chain_] by [parallel_] divide. *)
Lemma Vertical_agrees_on_whole_panels (z : bool) (chain parallel W H : Z) :
  0 < chain -> 0 < parallel -> 0 <= W -> 0 <= H -> is_int W -> is_int H ->
  Z.rem W chain = 0 -> Z.rem H parallel = 0 ->
  size_and_mapping_agree
    {| VerticalMapper.z_ := z; VerticalMapper.chain_ := chain;
       VerticalMapper.parallel_ := parallel |}
    W H.
Proof.
  intros Hc Hp HW0 HH0 HW HH HrW HrH.
  rewrite Z.rem_mod_nonneg in HrW, HrH by lia.
  pose proof (Z.div_mod W chain ltac:(lia)) as EW.
  pose proof (Z.div_mod H parallel ltac:(lia)) as EH.
  assert (0 <= W / chain) by (apply Z.div_pos; lia).
  assert (0 <= H / parallel) by (apply Z.div_pos; lia).
  pose proof (Vertical_agrees z chain parallel (W / chain) (H / parallel))
    as Hagree.
  replace (chain * (W / chain)) with W in Hagree by lia.
  replace (parallel * (H / parallel)) with H in Hagree by lia.
  now apply Hagree.
Qed.

(** C1: every built-in mapper that accepted its configuration and reported
    a size maps each visible coordinate into the matrix, and distinct ones
    to distinct places, on every matrix for Rotate, Mirror, U-mapper and
    Windmill, and for the V-mapper on the matrices whose width is a
    multiple of [chain] and whose height is a multiple of [parallel]; for
    Rotate this is stated for the angles 0, 90, 180 and 270. *)
Theorem mappers_agree_with_their_sizes :
  forall (chain parallel W H : Z) (param : option string),
    0 < chain -> 0 < parallel -> 0 <= W -> 0 <= H -> is_int W -> is_int H ->
    (forall m0 m : RotatePixelMapper.t,
       SetParameters m0 chain parallel param = Some (true, m) ->
       RotatePixelMapper.angle_ m ∈ [0; 90; 180; 270] ->
       size_and_mapping_agree m W H) /\
    (forall m0 m : MirrorPixelMapper.t,
       SetParameters m0 chain parallel param = Some (true, m) ->
       size_and_mapping_agree m W H) /\
    (forall m0 m : UArrangementMapper.t,
       SetParameters m0 chain parallel param = Some (true, m) ->
       size_and_mapping_agree m W H) /\
    (forall m0 m : VerticalMapper.t,
       SetParameters m0 chain parallel param = Some (true, m) ->
       Z.rem W chain = 0 -> Z.rem H parallel = 0 ->
       size_and_mapping_agree m W H) /\
    (forall m0 m : WindmillPixelMapper.t,
       SetParameters m0 chain parallel param = Some (true, m) ->
       size_and_mapping_agree m W H).
Proof.
  intros chain parallel W H param Hc Hp HW0 HH0 HW HH.
  split; [| split; [| split; [| split]]].
  - intros m0 m _ Hm. now apply Rotate_agrees.
  - intros m0 m _. now apply Mirror_agrees.
  - intros m0 m Hconf. cbn in Hconf.
    unfold UArrangementMapper.SetParameters in Hconf.
    destruct (decide (chain < 2)); [discriminate |].
    apply bind_Some in Hconf as (r & _ & Hconf).
    destruct (decide (r <> 0)); [discriminate |]. injection Hconf as <-.
    now apply UArrangement_agrees_on_any_matrix.
  - intros m0 m [= <-]. now apply Vertical_agrees_on_whole_panels.
  - intros m0 m Hconf. cbn in Hconf.
    unfold WindmillPixelMapper.SetParameters in Hconf. cbn in Hconf.
    destruct (decide (parallel <> 2)) as [| Hpar]; [discriminate |].
    assert (Hm : WindmillPixelMapper.chain_ m = chain /\
                 WindmillPixelMapper.parallel_ m = 2).
    { assert (parallel = 2) as -> by lia.
      destruct param as [p |]; [| injection Hconf as <-; auto].
      match type of Hconf with
      | Some (WindmillPixelMapper.scan_flags ?m1 p) = _ =>
          destruct (scan_flags_spec p m1) as (ok & m' & E & Hch & Hpl & _)
      end.
      rewrite E in Hconf. injection Hconf as -> ->. auto. }
    destruct m as [z s c p]. cbn in Hm. destruct Hm as [-> ->].
    now apply Windmill_agrees_on_any_matrix.
Qed.

Lemma mappers_agree_with_their_sizes_witness :
  (exists mx my,
     MapVisibleToMatrix
       {| WindmillPixelMapper.z_ := true;
          WindmillPixelMapper.swap_lr_ := false;
          WindmillPixelMapper.chain_ := 2;
          WindmillPixelMapper.parallel_ := 2 |}
       131 65 5 7 (-1, -1) = Some (mx, my) /\
     0 <= mx < 131 /\ 0 <= my < 65) /\
  (exists mx my,
     MapVisibleToMatrix
       {| VerticalMapper.z_ := false; VerticalMapper.chain_ := 4;
          VerticalMapper.parallel_ := 3 |}
       96 126 0 167 (-1, -1) = Some (mx, my) /\
     0 <= mx < 96 /\ 0 <= my < 126).
Proof.
  split.
  - refine (proj1 (proj2 (proj2 (proj2 (proj2
              (mappers_agree_with_their_sizes 2 2 131 65 (Some "Z"%string)
                 _ _ _ _ _ _))))
              WindmillPixelMapper.new _ _ 128 65 _) 5 7 (-1, -1) _ _);
      try reflexivity; unfold is_int, INT_MIN, INT_MAX; lia.
  - refine (proj1 (proj1 (proj2 (proj2 (proj2
              (mappers_agree_with_their_sizes 4 3 96 126 None
                 _ _ _ _ _ _))))
              zeroed _ _ _ _ 72 168 _) 0 167 (-1, -1) _ _);
      try reflexivity; unfold is_int, INT_MIN, INT_MAX; lia.
Defined.

(** V-mapper configured for 4 by 3 panels accepts every matrix.  On a
    96x128 matrix, whose height 3 does not divide, the size is reported as
    72x170, and the visible (0, 168) is mapped to column 96; on a 6x3
    matrix, whose width 4 does not divide, the size is reported as 4x4, and
    the visible (3, 0) is mapped to row 3. *)
Lemma Vertical_leaves_the_matrix :
  exists m : VerticalMapper.t,
    SetParameters
      {| VerticalMapper.z_ := false; VerticalMapper.chain_ := 0;
         VerticalMapper.parallel_ := 0 |} 4 3 None = Some (true, m) /\
    (GetSizeMapping m 96 128 = Some (true, (72, 170)) /\
     MapVisibleToMatrix m 96 128 0 168 (-1, -1) = Some (96, 0) /\
     ~ size_and_mapping_agree m 96 128) /\
    (GetSizeMapping m 6 3 = Some (true, (4, 4)) /\
     MapVisibleToMatrix m 6 3 3 0 (-1, -1) = Some (0, 3) /\
     ~ size_and_mapping_agree m 6 3).
Proof.
  eexists. split; [reflexivity |].
  split; (split; [reflexivity |]; split; [reflexivity |]); intros Hagree.
  - destruct (Hagree 72 170 eq_refl) as [Hin _].
    destruct (Hin 0 168 (-1, -1)) as (mx & my & Hmap & Hmx & _);
      [lia | lia |].
    vm_compute in Hmap. injection Hmap as <- <-. lia.
  - destruct (Hagree 4 4 eq_refl) as [Hin _].
    destruct (Hin 3 0 (-1, -1)) as (mx & my & Hmap & _ & Hmy);
      [lia | lia |].
    vm_compute in Hmap. injection Hmap as <- <-. lia.
Qed.

(** ** Examples *)

Example Rotate_45_is_rejected :
  SetParameters RotatePixelMapper.new 1 1 (Some "45"%string)
  = Some (false, RotatePixelMapper.new).
Proof. reflexivity. Qed.

Example Rotate_90_swaps_64x32 :
  SetParameters RotatePixelMapper.new 1 1 (Some "90"%string)
  = Some (true, {| RotatePixelMapper.angle_ := 90 |}) /\
  GetSizeMapping {| RotatePixelMapper.angle_ := 90 |} 64 32
  = Some (true, (32, 64)).
Proof. split; reflexivity. Qed.

Example Mirror_X_is_rejected :
  SetParameters MirrorPixelMapper.new 1 1 (Some "X"%string)
  = Some (false, MirrorPixelMapper.new).
Proof. reflexivity. Qed.

Example Mirror_empty_is_H :
  SetParameters {| MirrorPixelMapper.horizontal_ := false |} 1 1
    (Some ""%string)
  = SetParameters {| MirrorPixelMapper.horizontal_ := false |} 1 1
      (Some "H"%string).
Proof. reflexivity. Qed.

Example Windmill_maps_5_7 :
  MapVisibleToMatrix
    {| WindmillPixelMapper.z_ := true; WindmillPixelMapper.swap_lr_ := false;
       WindmillPixelMapper.chain_ := 2; WindmillPixelMapper.parallel_ := 2 |}
    128 64 5 7 (-1, -1) = Some (56, 26).
Proof. reflexivity. Qed.

Example built_in_names (v : VerticalMapper.t) :
  (object_name <$> (CreateMapperMap v !! "u-mapper")
   = Some "U-mapper" /\
   object_name <$> (CreateMapperMap v !! "v-mapper")
   = Some "V-mapper" /\
   CreateMapperMap v !! "vertical" = None)%string.
Proof. repeat split; reflexivity. Qed.

(** * Further properties *)

(** ** How Rotate and Mirror compose *)

(** X1: stacking a rotation by [b] on a rotation by [a] is the rotation by
    [a + b]: the sizes agree, and so do the places. *)
Theorem Rotate_composes :
  forall (a b W H x y vw vh vw' vh' : Z) (out : Z * Z),
    a ∈ [0; 90; 180; 270] -> b ∈ [0; 90; 180; 270] ->
    is_int W -> is_int H ->
    let rot theta := {| RotatePixelMapper.angle_ := theta |} in
    GetSizeMapping (rot a) W H = Some (true, (vw, vh)) ->
    GetSizeMapping (rot b) vw vh = Some (true, (vw', vh')) ->
    0 <= x < vw' -> 0 <= y < vh' ->
    GetSizeMapping (rot ((a + b) mod 360)) W H = Some (true, (vw', vh')) /\
    exists x' y',
      MapVisibleToMatrix (rot b) vw vh x y out = Some (x', y') /\
      (0 <= x' < vw /\ 0 <= y' < vh) /\
      MapVisibleToMatrix (rot a) W H x' y' out
      = MapVisibleToMatrix (rot ((a + b) mod 360)) W H x y out.
Proof.
  intros a b W H x y vw vh vw' vh' out Ha Hb HW HH rot. in_list.
  destruct Ha as [-> | [-> | [-> | [-> | []]]]];
    destruct Hb as [-> | [-> | [-> | [-> | []]]]];
    cbn; intros [= <- <-] [= <- <-] Hx Hy;
    (split; [reflexivity |]);
    unfold RotatePixelMapper.MapVisibleToMatrix; cbn; int_ops;
    eexists _, _; (split; [reflexivity |]); (split; [lia |]);
    int_ops; do 2 f_equal; lia.
Qed.

Lemma Rotate_composes_witness :
  GetSizeMapping {| RotatePixelMapper.angle_ := (90 + 270) mod 360 |} 64 32
  = Some (true, (64, 32)) /\
  exists x' y',
    MapVisibleToMatrix {| RotatePixelMapper.angle_ := 270 |} 32 64 3 5
      (-1, -1) = Some (x', y') /\
    (0 <= x' < 32 /\ 0 <= y' < 64) /\
    MapVisibleToMatrix {| RotatePixelMapper.angle_ := 90 |} 64 32 x' y'
      (-1, -1)
    = MapVisibleToMatrix {| RotatePixelMapper.angle_ := (90 + 270) mod 360 |}
        64 32 3 5 (-1, -1).
Proof.
  apply (Rotate_composes 90 270 64 32 3 5 32 64 64 32 (-1, -1));
    try reflexivity; try (in_list; lia); try int_bounds; lia.
Defined.

(** X2: mirroring both axes, in either order, is the rotation by 180. *)
Theorem Mirror_both_axes_is_Rotate_180 :
  forall (W H x y : Z) (out : Z * Z),
    is_int W -> is_int H -> 0 <= x < W -> 0 <= y < H ->
    let horizontal := {| MirrorPixelMapper.horizontal_ := true |} in
    let vertical := {| MirrorPixelMapper.horizontal_ := false |} in
    let rot180 := {| RotatePixelMapper.angle_ := 180 |} in
    (exists x' y',
       MapVisibleToMatrix horizontal W H x y out = Some (x', y') /\
       MapVisibleToMatrix vertical W H x' y' out
       = MapVisibleToMatrix rot180 W H x y out) /\
    (exists x' y',
       MapVisibleToMatrix vertical W H x y out = Some (x', y') /\
       MapVisibleToMatrix horizontal W H x' y' out
       = MapVisibleToMatrix rot180 W H x y out).
Proof.
  intros W H x y out HW HH Hx Hy horizontal vertical rot180. cbn.
  unfold MirrorPixelMapper.MapVisibleToMatrix,
    RotatePixelMapper.MapVisibleToMatrix. cbn. int_ops.
  split; eexists _, _; (split; [reflexivity |]); int_ops; do 2 f_equal; lia.
Qed.

Lemma Mirror_both_axes_is_Rotate_180_witness :
  (exists x' y',
     MapVisibleToMatrix {| MirrorPixelMapper.horizontal_ := true |}
       64 32 3 5 (-1, -1) = Some (x', y') /\
     MapVisibleToMatrix {| MirrorPixelMapper.horizontal_ := false |}
       64 32 x' y' (-1, -1)
     = MapVisibleToMatrix {| RotatePixelMapper.angle_ := 180 |}
         64 32 3 5 (-1, -1)) /\
  (exists x' y',
     MapVisibleToMatrix {| MirrorPixelMapper.horizontal_ := false |}
       64 32 3 5 (-1, -1) = Some (x', y') /\
     MapVisibleToMatrix {| MirrorPixelMapper.horizontal_ := true |}
       64 32 x' y' (-1, -1)
     = MapVisibleToMatrix {| RotatePixelMapper.angle_ := 180 |}
         64 32 3 5 (-1, -1)).
Proof.
  apply (Mirror_both_axes_is_Rotate_180 64 32 3 5 (-1, -1));
    try int_bounds; lia.
Defined.

(** X3: Rotate and Mirror reach every place of the matrix. *)
Theorem Rotate_and_Mirror_cover_the_matrix :
  forall (W H : Z),
    is_int W -> is_int H ->
    (forall m : RotatePixelMapper.t,
       RotatePixelMapper.angle_ m ∈ [0; 90; 180; 270] ->
       mapping_covers_matrix m W H) /\
    (forall m : MirrorPixelMapper.t, mapping_covers_matrix m W H).
Proof.
  intros W H HW HH. split.
  - intros [a] Ha vw vh. cbn in *. in_list.
    unfold RotatePixelMapper.GetSizeMapping,
      RotatePixelMapper.MapVisibleToMatrix. cbn [RotatePixelMapper.angle_].
    destruct Ha as [-> | [-> | [-> | [-> | []]]]]; cbn;
      intros [= <- <-] mx my out Hmx Hmy.
    + exists mx, my. split; [lia | reflexivity].
    + exists my, (W - mx - 1). split; [lia |]. int_ops. do 2 f_equal. lia.
    + exists (W - mx - 1), (H - my - 1). split; [lia |]. int_ops.
      f_equal. f_equal; lia.
    + exists (H - my - 1), mx. split; [lia |]. int_ops. do 2 f_equal. lia.
  - intros [[|]] vw vh; cbn;
      unfold MirrorPixelMapper.GetSizeMapping,
        MirrorPixelMapper.MapVisibleToMatrix; cbn;
      intros [= <- <-] mx my out Hmx Hmy.
    + exists (W - 1 - mx), my. split; [lia |]. int_ops. do 2 f_equal. lia.
    + exists mx, (H - 1 - my). split; [lia |]. int_ops. do 2 f_equal. lia.
Qed.

Lemma Rotate_and_Mirror_cover_the_matrix_witness :
  exists x y,
    (0 <= x < 32 /\ 0 <= y < 64) /\
    MapVisibleToMatrix {| RotatePixelMapper.angle_ := 90 |} 64 32 x y
      (-1, -1) = Some (10, 20).
Proof.
  refine (proj1 (Rotate_and_Mirror_cover_the_matrix 64 32 _ _)
            {| RotatePixelMapper.angle_ := 90 |} _ 32 64 _ 10 20 (-1, -1)
            _ _);
    try reflexivity; try (cbn; in_list; lia); try int_bounds; lia.
Defined.

(** ** What a configuration leaves behind *)





(** Rotate, Mirror and U-mapper reject a configuration without touching
    the object. *)
Lemma rejection_keeps_the_object (chain parallel : Z) (param : option string) :
  (forall m m' : RotatePixelMapper.t,
     SetParameters m chain parallel param = Some (false, m') -> m' = m) /\
  (forall m m' : MirrorPixelMapper.t,
     SetParameters m chain parallel param = Some (false, m') -> m' = m) /\
  (forall m m' : UArrangementMapper.t,
     SetParameters m chain parallel param = Some (false, m') -> m' = m).
Proof.
  split; [| split].
  - intros m m'. cbn. unfold RotatePixelMapper.SetParameters.
    destruct param as [p |]; [| discriminate].
    destruct (decide (strlen p = 0)); [discriminate |].
    destruct (strtol p) as [v [| c rest]]; [| now intros [= <-]].
    destruct (_ %! _) as [r |]; [| discriminate]. cbn [bind].
    destruct (decide (r <> 0)); [now intros [= <-] |].
    destruct (_ %! _); discriminate.
  - intros m m'. cbn. unfold MirrorPixelMapper.SetParameters.
    destruct param as [[| c rest] |]; try discriminate.
    repeat (destruct (decide _); [discriminate |]). now intros [= <-].
  - intros m m'. cbn. unfold UArrangementMapper.SetParameters.
    destruct (decide (chain < 2)); [now intros [= <-] |].
    destruct (_ %! _) as [r |]; [| discriminate]. cbn [bind].
    destruct (decide (r <> 0)); [now intros [= <-] | discriminate].
Qed.

(** The lookup of a mapper that rejects without touching its state leaves
    the map as it was. *)
Lemma FindPixelMapper_rejected_unchanged `{PixelMapper M} v singleton name
    chain parallel parameter (m : M) s' :
  GetMapperMap v singleton !! lower_name name = Some (object m) ->
  (forall m', SetParameters m chain parallel parameter = Some (false, m') ->
              m' = m) ->
  FindPixelMapper v singleton name chain parallel parameter
  = Some (None, s') ->
  s' = Some (GetMapperMap v singleton).
Proof.
  intros Hfound Hkeep.
  rewrite (FindPixelMapper_found _ _ _ _ _ _ _ Hfound).
  unfold object_configure. cbn.
  destruct (SetParameters m chain parallel parameter) as [[[|] m'] |] eqn:E;
    cbn; try discriminate.
  intros [= <-]. rewrite (Hkeep m' eq_refl). f_equal.
  now apply insert_id.
Qed.

(** X5: a lookup that Rotate, Mirror or U-mapper rejects leaves the map
    and its objects as they were. *)
Theorem rejected_lookup_keeps_the_registry :
  forall v singleton name chain parallel parameter s',
    let registry := GetMapperMap v singleton in
    FindPixelMapper v singleton name chain parallel parameter
    = Some (None, s') ->
    ((exists m : RotatePixelMapper.t,
        registry !! lower_name name = Some (object m)) \/
     (exists m : MirrorPixelMapper.t,
        registry !! lower_name name = Some (object m)) \/
     (exists m : UArrangementMapper.t,
        registry !! lower_name name = Some (object m))) ->
    s' = Some registry.
Proof.
  intros v singleton name chain parallel parameter s' registry Hfind.
  destruct (rejection_keeps_the_object chain parallel parameter)
    as (HR & HM & HU).
  intros [[m Hm] | [[m Hm] | [m Hm]]].
  - exact (FindPixelMapper_rejected_unchanged _ _ _ _ _ _ m s' Hm
             (HR m) Hfind).
  - exact (FindPixelMapper_rejected_unchanged _ _ _ _ _ _ m s' Hm
             (HM m) Hfind).
  - exact (FindPixelMapper_rejected_unchanged _ _ _ _ _ _ m s' Hm
             (HU m) Hfind).
Qed.

Lemma rejected_lookup_keeps_the_registry_witness :
  Some (<["mirror"%string := object MirrorPixelMapper.new]>
          (CreateMapperMap zeroed))
  = Some (GetMapperMap zeroed None).
Proof.
  apply (rejected_lookup_keeps_the_registry zeroed None "Mirror" 1 1
           (Some "x"%string)); [reflexivity |].
  right; left. exists MirrorPixelMapper.new. reflexivity.
Defined.

(** X6: Windmill records chain and parallel before it looks at them: a
    rejected lookup leaves them in the registered object. *)
Theorem Windmill_rejection_overwrites :
  forall v singleton name chain parallel parameter s'
         (m : WindmillPixelMapper.t),
    GetMapperMap v singleton !! lower_name name = Some (object m) ->
    FindPixelMapper v singleton name chain parallel parameter
    = Some (None, s') ->
    exists m' : WindmillPixelMapper.t,
      GetMapperMap v s' !! lower_name name = Some (object m') /\
      WindmillPixelMapper.chain_ m' = chain /\
      WindmillPixelMapper.parallel_ m' = parallel /\
      (parallel <> 2 ->
       WindmillPixelMapper.z_ m' = WindmillPixelMapper.z_ m /\
       WindmillPixelMapper.swap_lr_ m' = WindmillPixelMapper.swap_lr_ m).
Proof.
  intros v singleton name chain parallel parameter s' m Hfound.
  rewrite (FindPixelMapper_found _ _ _ _ _ _ _ Hfound).
  unfold object_configure. cbn.
  unfold WindmillPixelMapper.SetParameters. cbn.
  destruct (decide (parallel <> 2)) as [Hp | Hp]; cbn.
  - intros [= <-]. eexists. split; [apply lookup_insert_eq |]. cbn. auto.
  - destruct parameter as [p |]; cbn; [| discriminate].
    match goal with
    | |- context [WindmillPixelMapper.scan_flags ?m1 p] =>
        destruct (scan_flags_spec p m1) as (ok & m' & -> & Hch & Hpl & _)
    end.
    cbn in *. destruct ok; [discriminate |]. intros [= <-].
    exists m'. split; [apply lookup_insert_eq |]. tauto.
Qed.

Lemma Windmill_rejection_overwrites_witness :
  exists m' : WindmillPixelMapper.t,
    GetMapperMap zeroed
      (Some (<["windmill"%string :=
                 object {| WindmillPixelMapper.z_ := false;
                           WindmillPixelMapper.swap_lr_ := false;
                           WindmillPixelMapper.chain_ := 3;
                           WindmillPixelMapper.parallel_ := 1 |}]>
               (CreateMapperMap zeroed)))
      !! lower_name "Windmill" = Some (object m') /\
    WindmillPixelMapper.chain_ m' = 3 /\
    WindmillPixelMapper.parallel_ m' = 1 /\
    (1 <> 2 ->
     WindmillPixelMapper.z_ m'
     = WindmillPixelMapper.z_ WindmillPixelMapper.new /\
     WindmillPixelMapper.swap_lr_ m'
     = WindmillPixelMapper.swap_lr_ WindmillPixelMapper.new).
Proof.
  apply (Windmill_rejection_overwrites zeroed None "Windmill" 3 1 None);
    reflexivity.
Defined.

(** A completed scan has set each flag that occurs and no other. *)
Lemma scan_flags_flags (p : string) (m m' : WindmillPixelMapper.t) :
  WindmillPixelMapper.scan_flags m p = (true, m') ->
  (WindmillPixelMapper.z_ m' = true <->
   WindmillPixelMapper.z_ m = true \/
   exists c, c ∈ list_ascii_of_string p /\ (c = "Z" \/ c = "z")%char) /\
  (WindmillPixelMapper.swap_lr_ m' = true <->
   WindmillPixelMapper.swap_lr_ m = true \/
   exists c, c ∈ list_ascii_of_string p /\ (c = "S" \/ c = "s")%char).
Proof.
  revert m. induction p as [| c rest IH]; intros m; cbn.
  - intros [= <-]. split; (split; [auto |]);
      (intros [| (c & Hc & _)]; [assumption | in_list; contradiction]).
  - assert (Hcons : forall P : ascii -> Prop,
              (exists c', c' ∈ c :: list_ascii_of_string rest /\ P c') <->
              P c \/ exists c', c' ∈ list_ascii_of_string rest /\ P c').
    { intros P. split.
      - intros (c' & Hc' & HP). apply elem_of_cons in Hc' as [-> | Hc'];
          [auto | right; eauto].
      - intros [HP | (c' & Hc' & HP)]; [exists c | exists c'];
          (split; [| assumption]); apply elem_of_cons; auto. }
    rewrite !Hcons.
    destruct (WindmillPixelMapper.is_separator c) eqn:Hsep.
    { intros Hscan. apply IH in Hscan. cbn in Hscan.
      unfold WindmillPixelMapper.is_separator in Hsep.
      apply bool_decide_eq_true in Hsep.
      assert (~ (c = "Z" \/ c = "z")%char /\ ~ (c = "S" \/ c = "s")%char)
        by (split; intros [-> | ->]; destruct Hsep as [| [| [|]]];
            discriminate).
      tauto. }
    destruct (decide (c = "Z"%char \/ c = "z"%char)) as [HZ | HZ].
    { intros Hscan. apply IH in Hscan. cbn in Hscan.
      assert (~ (c = "S" \/ c = "s")%char)
        by (intros [-> | ->]; destruct HZ; discriminate).
      tauto. }
    destruct (decide (c = "S"%char \/ c = "s"%char)) as [HS | HS];
      [| discriminate].
    intros Hscan. apply IH in Hscan. cbn in Hscan. tauto.
Qed.

(** X7: an accepted Windmill parameter is a set of flags: the order, the
    repetitions and the separators do not matter. *)
Theorem Windmill_flags :
  forall (m m' : WindmillPixelMapper.t) (chain parallel : Z) param,
    SetParameters m chain parallel param = Some (true, m') ->
    WindmillPixelMapper.chain_ m' = chain /\
    WindmillPixelMapper.parallel_ m' = 2 /\
    (WindmillPixelMapper.z_ m' = true <->
     exists c, c ∈ param_chars param /\ (c = "Z" \/ c = "z")%char) /\
    (WindmillPixelMapper.swap_lr_ m' = true <->
     exists c, c ∈ param_chars param /\ (c = "S" \/ c = "s")%char).
Proof.
  intros m m' chain parallel param. cbn.
  unfold WindmillPixelMapper.SetParameters. cbn.
  destruct (decide (parallel <> 2)) as [| Hp]; [discriminate |].
  assert (parallel = 2) as -> by lia.
  destruct param as [p |]; cbn [param_chars].
  - intros [= Hscan].
    match type of Hscan with
    | WindmillPixelMapper.scan_flags ?m1 p = _ =>
        destruct (scan_flags_spec p m1) as (ok & m'' & E & Hch & Hpl & _)
    end.
    rewrite Hscan in E. injection E as <- <-.
    apply scan_flags_flags in Hscan. cbn in *.
    split; [assumption |]. split; [assumption |].
    destruct Hscan as [HZ HS]. rewrite HZ, HS.
    split; (split; [intros [|]; [discriminate | assumption] | auto]).
  - intros [= <-]. cbn. split; [reflexivity |]. split; [reflexivity |].
    split; (split; [discriminate |]);
      intros (c & Hc & _); in_list; contradiction.
Qed.

Lemma Windmill_flags_witness :
  WindmillPixelMapper.chain_
    {| WindmillPixelMapper.z_ := true; WindmillPixelMapper.swap_lr_ := true;
       WindmillPixelMapper.chain_ := 2; WindmillPixelMapper.parallel_ := 2 |}
  = 2 /\
  WindmillPixelMapper.parallel_
    {| WindmillPixelMapper.z_ := true; WindmillPixelMapper.swap_lr_ := true;
       WindmillPixelMapper.chain_ := 2; WindmillPixelMapper.parallel_ := 2 |}
  = 2 /\
  (true = true <->
   exists c, c ∈ param_chars (Some "s;Z"%string)
             /\ (c = "Z" \/ c = "z")%char) /\
  (true = true <->
   exists c, c ∈ param_chars (Some "s;Z"%string)
             /\ (c = "S" \/ c = "s")%char).
Proof.
  apply (Windmill_flags WindmillPixelMapper.new
           {| WindmillPixelMapper.z_ := true;
              WindmillPixelMapper.swap_lr_ := true;
              WindmillPixelMapper.chain_ := 2;
              WindmillPixelMapper.parallel_ := 2 |}
           2 2 (Some "s;Z"%string)).
  reflexivity.
Defined.

(** ** The geometry of the V-mapper, Windmill and the U-mapper *)

(** Block [i], offset [r] is read back by division and remainder. *)
Lemma block_div_mod (i r d : Z) :
  0 <= r < d -> (i * d + r) / d = i /\ (i * d + r) mod d = r.
Proof.
  intros Hr. split; symmetry.
  - apply (Z.div_unique _ _ _ r); lia.
  - apply (Z.mod_unique _ _ i); lia.
Qed.

(** X8: the sizes the V-mapper and Windmill report for a grid of panels:
    [parallel] panels wide and [chain] high, and twice [chain] rotated
    panels wide. *)
Theorem sizes_on_panel_grids :
  forall (z s : bool) (chain parallel pw ph : Z),
    0 < chain -> 0 < parallel -> 0 <= pw -> 0 <= ph ->
    (is_int (chain * pw * parallel) -> is_int (parallel * ph * chain) ->
     GetSizeMapping
       {| VerticalMapper.z_ := z; VerticalMapper.chain_ := chain;
          VerticalMapper.parallel_ := parallel |}
       (chain * pw) (parallel * ph)
     = Some (true, (parallel * pw, chain * ph))) /\
    (is_int (chain * pw) -> is_int (ph * chain * 2) ->
     GetSizeMapping
       {| WindmillPixelMapper.z_ := z; WindmillPixelMapper.swap_lr_ := s;
          WindmillPixelMapper.chain_ := chain;
          WindmillPixelMapper.parallel_ := 2 |}
       (chain * pw) (2 * ph)
     = Some (true, (ph * chain * 2, pw))).
Proof.
  intros z s chain parallel pw ph Hc Hp Hpw Hph. split.
  - intros HW HH. cbn. unfold VerticalMapper.GetSizeMapping. cbn.
    assert (0 <= chain * pw * parallel /\ 0 <= parallel * ph * chain) by nia.
    int_ops. do 3 f_equal.
    + replace (chain * pw * parallel) with (parallel * pw * chain) by ring.
      apply Z.div_mul. lia.
    + replace (parallel * ph * chain) with (chain * ph * parallel) by ring.
      apply Z.div_mul. lia.
  - intros HW HH. cbn. unfold WindmillPixelMapper.GetSizeMapping. cbn.
    unfold lit.
    assert (0 <= ph * chain <= ph * chain * 2 /\ 2 * ph <= ph * chain * 2)
      by nia.
    rewrite !div_mul_ok by (try lia; int_bounds). cbn [bind].
    int_ops. reflexivity.
Qed.

Lemma sizes_on_panel_grids_witness :
  GetSizeMapping
    {| VerticalMapper.z_ := false; VerticalMapper.chain_ := 4;
       VerticalMapper.parallel_ := 3 |} (4 * 32) (3 * 16)
  = Some (true, (3 * 32, 4 * 16)) /\
  GetSizeMapping
    {| WindmillPixelMapper.z_ := false; WindmillPixelMapper.swap_lr_ := true;
       WindmillPixelMapper.chain_ := 4; WindmillPixelMapper.parallel_ := 2 |}
    (4 * 32) (2 * 16)
  = Some (true, (16 * 4 * 2, 32)).
Proof.
  split.
  - apply (proj1 (sizes_on_panel_grids false true 4 3 32 16
                    ltac:(lia) ltac:(lia) ltac:(lia) ltac:(lia)));
      int_bounds.
  - apply (proj2 (sizes_on_panel_grids false true 4 3 32 16
                    ltac:(lia) ltac:(lia) ltac:(lia) ltac:(lia)));
      int_bounds.
Defined.

Lemma vertical_flip_odd (z : bool) (chain row : Z) :
  vertical_flip z chain row = z && Z.odd (chain - 1 - row).
Proof.
  unfold vertical_flip. f_equal.
  rewrite <- !Z.bit0_mod, !Z.bit0_odd, !Z.odd_sub. cbn [Z.odd].
  destruct (Z.odd chain), (Z.odd row); reflexivity.
Qed.

(** X9: with Z the panel rows are turned upside down alternately, the last
    row of the visible canvas never. *)
Theorem Vertical_flips_alternate_rows :
  forall (z : bool) (chain parallel pw ph x y : Z) (out : Z * Z),
    0 < chain -> 0 < parallel ->
    is_int (chain * pw) -> is_int (parallel * ph) ->
    is_int (parallel * pw) -> is_int (chain * ph) ->
    0 <= x < parallel * pw -> 0 <= y < chain * ph ->
    let flip := z && Z.odd (chain - 1 - y / ph) in
    MapVisibleToMatrix
      {| VerticalMapper.z_ := z; VerticalMapper.chain_ := chain;
         VerticalMapper.parallel_ := parallel |}
      (chain * pw) (parallel * ph) x y out
    = Some (y / ph * pw + (if flip then pw - 1 - x mod pw else x mod pw),
            x / pw * ph + (if flip then ph - 1 - y mod ph else y mod ph)) /\
    ((chain - 1) * ph <= y -> flip = false).
Proof.
  intros z chain parallel pw ph x y out Hc Hp HW HH HW' HH' Hx Hy flip.
  subst flip. rewrite <- vertical_flip_odd. split.
  - now apply Vertical_map.
  - intros Hlast. rewrite vertical_flip_odd.
    assert (Hph : 0 < ph) by nia.
    assert (y / ph = chain - 1) as ->.
    { symmetry. apply (Z.div_unique _ _ _ (y - (chain - 1) * ph)); lia. }
    replace (chain - 1 - (chain - 1)) with 0 by ring. apply andb_false_r.
Qed.

Lemma Vertical_flips_alternate_rows_witness :
  MapVisibleToMatrix
    {| VerticalMapper.z_ := true; VerticalMapper.chain_ := 3;
       VerticalMapper.parallel_ := 2 |} (3 * 4) (2 * 5) 6 7 (-1, -1)
  = Some (7 / 5 * 4
          + (if true && Z.odd (3 - 1 - 7 / 5)
             then 4 - 1 - 6 mod 4 else 6 mod 4),
          6 / 4 * 5
          + (if true && Z.odd (3 - 1 - 7 / 5)
             then 5 - 1 - 7 mod 5 else 7 mod 5)) /\
  ((3 - 1) * 5 <= 7 -> true && Z.odd (3 - 1 - 7 / 5) = false).
Proof.
  apply (Vertical_flips_alternate_rows true 3 2 4 5 6 7 (-1, -1));
    try int_bounds; lia.
Defined.

(** X10: on a grid of panels the V-mapper reaches every place of the
    matrix. *)
Theorem Vertical_covers_the_matrix :
  forall (z : bool) (chain parallel pw ph : Z),
    0 < chain -> 0 < parallel -> 0 <= pw -> 0 <= ph ->
    is_int (chain * pw) -> is_int (parallel * ph) ->
    mapping_covers_matrix
      {| VerticalMapper.z_ := z; VerticalMapper.chain_ := chain;
         VerticalMapper.parallel_ := parallel |}
      (chain * pw) (parallel * ph).
Proof.
  intros z chain parallel pw ph Hc Hp Hpw Hph HW HH vw vh Hsize.
  cbn in Hsize. unfold VerticalMapper.GetSizeMapping, lit in Hsize.
  cbn [VerticalMapper.chain_ VerticalMapper.parallel_] in Hsize.
  apply bind_Some in Hsize as (vw' & Hvw & Hsize).
  apply bind_Some in Hsize as (vh' & Hvh & [= <- <-]).
  destruct (Some (chain * pw) *! Some parallel) as [a |] eqn:Ha;
    [| discriminate].
  apply mul_Some in Ha as (-> & Ha). apply div_Some in Hvw as (-> & _ & _).
  destruct (Some (parallel * ph) *! Some chain) as [b |] eqn:Hb;
    [| discriminate].
  apply mul_Some in Hb as (-> & Hb). apply div_Some in Hvh as (-> & _ & _).
  assert (HW' : is_int (parallel * pw))
    by (unfold is_int, INT_MIN, INT_MAX in *; nia).
  assert (HH' : is_int (chain * ph))
    by (unfold is_int, INT_MIN, INT_MAX in *; nia).
  rewrite !Z.quot_div_nonneg by nia.
  replace (chain * pw * parallel) with (parallel * pw * chain) by ring.
  replace (parallel * ph * chain) with (chain * ph * parallel) by ring.
  rewrite !Z.div_mul by lia.
  intros mx my out Hmx Hmy.
  assert (Hpw' : 0 < pw) by nia. assert (Hph' : 0 < ph) by nia.
  destruct (block_split mx pw chain) as (Emx & Hrow & Hxo); [lia | lia |].
  destruct (block_split my ph parallel) as (Emy & Hcol & Hyo); [lia | lia |].
  set (flip := vertical_flip z chain (mx / pw)).
  set (xr := if flip then pw - 1 - mx mod pw else mx mod pw).
  set (yr := if flip then ph - 1 - my mod ph else my mod ph).
  assert (Hxr : 0 <= xr < pw) by (subst xr; destruct flip; lia).
  assert (Hyr : 0 <= yr < ph) by (subst yr; destruct flip; lia).
  exists (my / ph * pw + xr), (mx / pw * ph + yr).
  split; [split; apply block_bound; lia |].
  rewrite Vertical_map by (try assumption; apply block_bound; lia).
  destruct (block_div_mod (my / ph) xr pw Hxr) as [-> ->].
  destruct (block_div_mod (mx / pw) yr ph Hyr) as [-> ->].
  fold flip. subst xr yr. f_equal. destruct flip; f_equal; lia.
Qed.

Lemma Vertical_covers_the_matrix_witness :
  exists x y,
    (0 <= x < 2 * 4 /\ 0 <= y < 3 * 5) /\
    MapVisibleToMatrix
      {| VerticalMapper.z_ := true; VerticalMapper.chain_ := 3;
         VerticalMapper.parallel_ := 2 |} (3 * 4) (2 * 5) x y (-1, -1)
    = Some (11, 9).
Proof.
  refine (Vertical_covers_the_matrix true 3 2 4 5 _ _ _ _ _ _
            (2 * 4) (3 * 5) _ 11 9 (-1, -1) _ _);
    try reflexivity; try int_bounds; lia.
Defined.

(** X11: Windmill reaches every place of the matrix as well. *)
Theorem Windmill_covers_the_matrix :
  forall (z s : bool) (chain pw ph : Z),
    0 < chain -> 0 <= pw -> 0 <= ph ->
    is_int (chain * pw) -> is_int (2 * ph) ->
    mapping_covers_matrix
      {| WindmillPixelMapper.z_ := z; WindmillPixelMapper.swap_lr_ := s;
         WindmillPixelMapper.chain_ := chain;
         WindmillPixelMapper.parallel_ := 2 |}
      (chain * pw) (2 * ph).
Proof.
  intros z s chain pw ph Hc Hpw Hph HW HH vw vh Hsize.
  cbn in Hsize. unfold WindmillPixelMapper.GetSizeMapping, lit in Hsize.
  cbn [WindmillPixelMapper.chain_ WindmillPixelMapper.parallel_] in Hsize.
  rewrite !div_mul_ok in Hsize by (try lia; int_bounds). cbn [bind] in Hsize.
  apply bind_Some in Hsize as (vw' & Hvw & [= <- <-]).
  destruct (Some ph *! Some chain) as [a |] eqn:Ha; [| discriminate].
  apply mul_Some in Ha as (-> & _). apply mul_Some in Hvw as (-> & Hvw).
  intros mx my out Hmx Hmy.
  assert (Hpw' : 0 < pw) by nia. assert (Hph' : 0 < ph) by nia.
  destruct (block_split mx pw chain) as (Emx & Hcpos & Hxo); [lia | lia |].
  destruct (block_split my ph 2) as (Emy & Hch & Hyo); [lia | lia |].
  set (left := bool_decide (my / ph = if s then 1 else 0)).
  set (idx := if left then mx / pw else 2 * chain - 1 - mx / pw).
  set (flip := z && bool_decide ((mx / pw) mod 2 = 1)).
  set (rx := if flip then my mod ph else ph - 1 - my mod ph).
  set (y := if xorb left flip then pw - 1 - mx mod pw else mx mod pw).
  assert (Hrx : 0 <= rx < ph) by (subst rx; destruct flip; lia).
  assert (Hy : 0 <= y < pw) by (subst y; destruct (xorb _ _); lia).
  assert (Hidx : 0 <= idx < 2 * chain) by (subst idx; destruct left; lia).
  exists (idx * ph + rx), y.
  split; [split; [| assumption] |].
  { replace (ph * chain * 2) with (2 * chain * ph) by ring.
    apply block_bound; lia. }
  rewrite Windmill_map; try assumption.
  2: { replace (ph * chain * 2) with (2 * chain * ph) by ring.
       apply block_bound; lia. }
  unfold windmill_ux, windmill_uy, windmill_channel, windmill_flip,
    windmill_cpos, windmill_left.
  destruct (block_div_mod idx rx ph Hrx) as [-> ->].
  assert (Hleft : bool_decide (idx < chain) = left).
  { subst idx left.
    destruct (bool_decide_reflect (my / ph = if s then 1 else 0));
      [apply bool_decide_eq_true_2 | apply bool_decide_eq_false_2]; lia. }
  rewrite Hleft.
  assert (Hcpos' : (if left then idx else 2 * chain - 1 - idx) = mx / pw)
    by (subst idx; destruct left; lia).
  rewrite Hcpos'. fold flip. fold y.
  assert (Hchan : (if left then if s then 1 else 0 else if s then 0 else 1)
                  = my / ph).
  { subst left. destruct (bool_decide_reflect (my / ph = if s then 1 else 0));
      [congruence | destruct s; lia]. }
  rewrite Hchan. subst y rx.
  f_equal. f_equal; [destruct (xorb left flip) | destruct flip]; lia.
Qed.

Lemma Windmill_covers_the_matrix_witness :
  exists x y,
    (0 <= x < 32 * 2 * 2 /\ 0 <= y < 64) /\
    MapVisibleToMatrix
      {| WindmillPixelMapper.z_ := true; WindmillPixelMapper.swap_lr_ := false;
         WindmillPixelMapper.chain_ := 2; WindmillPixelMapper.parallel_ := 2 |}
      (2 * 64) (2 * 32) x y (-1, -1)
    = Some (56, 26).
Proof.
  refine (Windmill_covers_the_matrix true false 2 64 32 _ _ _ _ _
            (32 * 2 * 2) 64 _ 56 26 (-1, -1) _ _);
    try reflexivity; try int_bounds; lia.
Defined.

(** X12: the flag S exchanges the two channels and changes nothing else. *)
Theorem Windmill_swap_exchanges_channels :
  forall (z : bool) (chain pw ph x y : Z) (out : Z * Z),
    0 < chain -> is_int (chain * pw) -> is_int (2 * ph) ->
    is_int (ph * chain * 2) ->
    0 <= x < ph * chain * 2 -> 0 <= y < pw ->
    let windmill s :=
      {| WindmillPixelMapper.z_ := z; WindmillPixelMapper.swap_lr_ := s;
         WindmillPixelMapper.chain_ := chain;
         WindmillPixelMapper.parallel_ := 2 |} in
    exists mx my,
      MapVisibleToMatrix (windmill false) (chain * pw) (2 * ph) x y out
      = Some (mx, my) /\
      (0 <= mx < chain * pw /\ 0 <= my < 2 * ph) /\
      MapVisibleToMatrix (windmill true) (chain * pw) (2 * ph) x y out
      = Some (mx, if decide (my < ph) then my + ph else my - ph).
Proof.
  intros z chain pw ph x y out Hc HW HH Hvw Hx Hy windmill. subst windmill.
  cbv beta. rewrite !Windmill_map by assumption.
  assert (Hph : 0 < ph) by nia.
  destruct (block_split x ph (2 * chain)) as (_ & Hidx & Hrx); [lia | lia |].
  assert (Huy : 0 <= windmill_uy z chain ph x < ph)
    by (unfold windmill_uy; destruct (windmill_flip _ _ _ _); lia).
  assert (Hux : 0 <= windmill_ux z chain pw ph x y < pw)
    by (unfold windmill_ux; destruct (xorb _ _); lia).
  assert (Hcpos : 0 <= windmill_cpos chain ph x < chain).
  { unfold windmill_cpos, windmill_left.
    destruct (bool_decide_reflect (x / ph < chain)); lia. }
  eexists _, _. split; [reflexivity |]. split.
  - split; [apply block_bound; lia |].
    unfold windmill_channel. destruct (windmill_left _ _ _); lia.
  - unfold windmill_channel.
    destruct (windmill_left _ _ _); destruct (decide _); f_equal; f_equal; lia.
Qed.

Lemma Windmill_swap_exchanges_channels_witness :
  exists mx my,
    MapVisibleToMatrix
      {| WindmillPixelMapper.z_ := true; WindmillPixelMapper.swap_lr_ := false;
         WindmillPixelMapper.chain_ := 2; WindmillPixelMapper.parallel_ := 2 |}
      (2 * 64) (2 * 32) 5 7 (-1, -1) = Some (mx, my) /\
    (0 <= mx < 2 * 64 /\ 0 <= my < 2 * 32) /\
    MapVisibleToMatrix
      {| WindmillPixelMapper.z_ := true; WindmillPixelMapper.swap_lr_ := true;
         WindmillPixelMapper.chain_ := 2; WindmillPixelMapper.parallel_ := 2 |}
      (2 * 64) (2 * 32) 5 7 (-1, -1)
    = Some (mx, if decide (my < 32) then my + 32 else my - 32).
Proof.
  apply (Windmill_swap_exchanges_channels true 2 64 32 5 7 (-1, -1));
    try int_bounds; lia.
Defined.

(** X13: Z turns the panels at the odd positions of each chain by 180
    degrees and leaves the others where they are without it. *)
Theorem Windmill_serpentine :
  forall (s : bool) (chain pw ph x y : Z) (out : Z * Z),
    0 < chain -> is_int (chain * pw) -> is_int (2 * ph) ->
    is_int (ph * chain * 2) ->
    0 <= x < ph * chain * 2 -> 0 <= y < pw ->
    let windmill z :=
      {| WindmillPixelMapper.z_ := z; WindmillPixelMapper.swap_lr_ := s;
         WindmillPixelMapper.chain_ := chain;
         WindmillPixelMapper.parallel_ := 2 |} in
    exists cpos p ux uy,
      (0 <= cpos < chain /\ 0 <= p < 2 /\ 0 <= ux < pw /\ 0 <= uy < ph) /\
      MapVisibleToMatrix (windmill false) (chain * pw) (2 * ph) x y out
      = Some (cpos * pw + ux, p * ph + uy) /\
      MapVisibleToMatrix (windmill true) (chain * pw) (2 * ph) x y out
      = Some (cpos * pw + (if Z.odd cpos then pw - 1 - ux else ux),
              p * ph + (if Z.odd cpos then ph - 1 - uy else uy)).
Proof.
  intros s chain pw ph x y out Hc HW HH Hvw Hx Hy windmill. subst windmill.
  cbv beta. rewrite !Windmill_map by assumption.
  assert (Hph : 0 < ph) by nia.
  destruct (block_split x ph (2 * chain)) as (_ & Hidx & Hrx); [lia | lia |].
  exists (windmill_cpos chain ph x), (windmill_channel s chain ph x),
    (windmill_ux false chain pw ph x y), (windmill_uy false chain ph x).
  split; [| split; [reflexivity |]].
  - unfold windmill_cpos, windmill_channel, windmill_ux, windmill_uy,
      windmill_flip, windmill_left. cbn [andb].
    destruct (bool_decide_reflect (x / ph < chain)), s; cbn [xorb]; lia.
  - unfold windmill_ux, windmill_uy, windmill_flip. cbn [andb].
    rewrite <- Z.bit0_odd, <- (Z.bit0_mod (windmill_cpos chain ph x)).
    destruct (Z.testbit (windmill_cpos chain ph x) 0); cbn [Z.b2z].
    + rewrite bool_decide_eq_true_2 by reflexivity.
      destruct (windmill_left chain ph x); cbn [xorb]; f_equal; f_equal; lia.
    + rewrite bool_decide_eq_false_2 by discriminate.
      destruct (windmill_left chain ph x); reflexivity.
Qed.

Lemma Windmill_serpentine_witness :
  exists cpos p ux uy,
    (0 <= cpos < 2 /\ 0 <= p < 2 /\ 0 <= ux < 64 /\ 0 <= uy < 32) /\
    MapVisibleToMatrix
      {| WindmillPixelMapper.z_ := false;
         WindmillPixelMapper.swap_lr_ := false;
         WindmillPixelMapper.chain_ := 2; WindmillPixelMapper.parallel_ := 2 |}
      (2 * 64) (2 * 32) 40 7 (-1, -1)
    = Some (cpos * 64 + ux, p * 32 + uy) /\
    MapVisibleToMatrix
      {| WindmillPixelMapper.z_ := true;
         WindmillPixelMapper.swap_lr_ := false;
         WindmillPixelMapper.chain_ := 2; WindmillPixelMapper.parallel_ := 2 |}
      (2 * 64) (2 * 32) 40 7 (-1, -1)
    = Some (cpos * 64 + (if Z.odd cpos then 64 - 1 - ux else ux),
            p * 32 + (if Z.odd cpos then 32 - 1 - uy else uy)).
Proof.
  apply (Windmill_serpentine false 2 64 32 40 7 (-1, -1));
    try int_bounds; lia.
Defined.

(** X14: without Z the V-mapper transposes the grid of panels: stacked on
    the V-mapper of the transposed grid it gives every coordinate back. *)
Theorem Vertical_transpose_round_trip :
  forall (chain parallel pw ph x y : Z) (out : Z * Z),
    0 < chain -> 0 < parallel ->
    is_int (chain * pw) -> is_int (parallel * ph) ->
    is_int (parallel * pw) -> is_int (chain * ph) ->
    0 <= x < chain * pw -> 0 <= y < parallel * ph ->
    let vmapper c p :=
      {| VerticalMapper.z_ := false; VerticalMapper.chain_ := c;
         VerticalMapper.parallel_ := p |} in
    exists x' y',
      MapVisibleToMatrix (vmapper parallel chain)
        (parallel * pw) (chain * ph) x y out = Some (x', y') /\
      (0 <= x' < parallel * pw /\ 0 <= y' < chain * ph) /\
      MapVisibleToMatrix (vmapper chain parallel)
        (chain * pw) (parallel * ph) x' y' out = Some (x, y).
Proof.
  intros chain parallel pw ph x y out Hc Hp HW HH HW' HH' Hx Hy vmapper.
  subst vmapper. cbv beta.
  assert (Hpw : 0 < pw) by nia. assert (Hph : 0 < ph) by nia.
  destruct (block_split x pw chain) as (Ex & Hcol & Hxr); [lia | lia |].
  destruct (block_split y ph parallel) as (Ey & Hrow & Hyr); [lia | lia |].
  rewrite Vertical_map by assumption.
  unfold vertical_flip. cbn [andb].
  eexists _, _. split; [reflexivity |].
  split; [split; apply block_bound; lia |].
  rewrite Vertical_map by (try assumption; apply block_bound; lia).
  unfold vertical_flip. cbn [andb].
  destruct (block_div_mod (y / ph) (x mod pw) pw Hxr) as [-> ->].
  destruct (block_div_mod (x / pw) (y mod ph) ph Hyr) as [-> ->].
  f_equal. f_equal; lia.
Qed.

Lemma Vertical_transpose_round_trip_witness :
  exists x' y',
    MapVisibleToMatrix
      {| VerticalMapper.z_ := false; VerticalMapper.chain_ := 2;
         VerticalMapper.parallel_ := 3 |} (2 * 4) (3 * 5) 6 7 (-1, -1)
    = Some (x', y') /\
    (0 <= x' < 2 * 4 /\ 0 <= y' < 3 * 5) /\
    MapVisibleToMatrix
      {| VerticalMapper.z_ := false; VerticalMapper.chain_ := 3;
         VerticalMapper.parallel_ := 2 |} (3 * 4) (2 * 5) x' y' (-1, -1)
    = Some (6, 7).
Proof.
  apply (Vertical_transpose_round_trip 3 2 4 5 6 7 (-1, -1));
    try int_bounds; lia.
Defined.

(** X15: the columns the U-mapper reaches: those of the return row, and
    as many from the middle of the matrix on for the outbound row; all of
    them when the width is a multiple of 64. *)
Theorem UArrangement_reaches :
  forall (parallel ph W mx my : Z) (out : Z * Z),
    0 < parallel -> 0 <= ph -> 0 <= W ->
    is_int W -> is_int (2 * (parallel * ph)) ->
    0 <= mx < W -> 0 <= my < parallel * ph ->
    let m := {| UArrangementMapper.parallel_ := parallel |} in
    let H := parallel * ph in
    let vw := W / 64 * 32 in
    GetSizeMapping m W H = Some (true, (vw, 2 * H)) /\
    ((exists x y,
        (0 <= x < vw /\ 0 <= y < 2 * H) /\
        MapVisibleToMatrix m W H x y out = Some (mx, my)) <->
     (mx < vw \/ W / 2 <= mx < W / 2 + vw)) /\
    (W mod 64 = 0 -> vw = W / 2 /\ (mx < vw \/ W / 2 <= mx < W / 2 + vw)).
Proof.
  intros parallel ph W mx my out Hp Hph HW0 HW HH Hmx Hmy m H vw.
  assert (Hph' : 0 < ph) by nia.
  assert (Hvw : 0 <= vw /\ vw <= W / 2 /\ 2 * (W / 2) <= W)
    by (subst vw; Z.div_mod_to_equations; lia).
  split; [| split].
  - subst m H vw. cbn. unfold UArrangementMapper.GetSizeMapping. cbn.
    assert (is_int (parallel * ph))
      by (unfold is_int, INT_MIN, INT_MAX in *; nia).
    int_ops. rewrite Z.mul_comm, Z.mod_mul by lia.
    destruct (decide (0 <> 0)); [lia | reflexivity].
  - split.
    + intros (x & y & (Hx & Hy) & Hmap). subst m H vw.
      destruct (UArrangement_map parallel ph W x y out)
        as ((Hslab & Hrow) & E); try assumption;
        [rewrite Z.quot_div_nonneg by lia; lia |].
      rewrite E in Hmap. cbn zeta in Hmap.
      destruct (decide (_ < ph)); injection Hmap as <- <-; lia.
    + intros Hcol.
      destruct (block_split my ph parallel) as (Emy & Hslab & Hr);
        [lia | lia |].
      set (up := bool_decide (W / 2 <= mx)).
      set (row := if up then my mod ph else 2 * ph - 1 - my mod ph).
      set (x := if up then mx - W / 2 else vw - 1 - mx).
      assert (Hrow : 0 <= row < 2 * ph) by (subst row; destruct up; lia).
      assert (Hx : 0 <= x < vw).
      { subst x up. destruct (bool_decide_reflect (W / 2 <= mx)); lia. }
      exists x, (my / ph * (2 * ph) + row).
      assert (Hy : 0 <= my / ph * (2 * ph) + row < 2 * H).
      { subst H. replace (2 * (parallel * ph)) with (parallel * (2 * ph))
          by ring. apply block_bound; lia. }
      split; [auto |]. subst m H.
      destruct (UArrangement_map parallel ph W x
                  (my / ph * (2 * ph) + row) out) as (_ & ->);
        try assumption; [rewrite Z.quot_div_nonneg by lia; exact Hx |].
      cbn zeta. destruct (block_div_mod (my / ph) row (2 * ph) Hrow) as [-> ->].
      subst row x up.
      destruct (bool_decide_reflect (W / 2 <= mx));
        destruct (decide (_ < ph)); try lia; f_equal; f_equal; lia.
  - intros Hmod. subst vw. clear Hvw. Z.div_mod_to_equations. lia.
Qed.

Lemma UArrangement_reaches_witness :
  exists x y,
    (0 <= x < 128 / 64 * 32 /\ 0 <= y < 2 * (2 * 16)) /\
    MapVisibleToMatrix {| UArrangementMapper.parallel_ := 2 |}
      128 (2 * 16) x y (-1, -1) = Some (100, 3).
Proof.
  destruct (UArrangement_reaches 2 16 128 100 3 (-1, -1))
    as (_ & Hreached & Hall); try int_bounds; try lia.
  apply Hreached. apply Hall. reflexivity.
Defined.

(** ** Rotate and Mirror: what is accepted *)

(** X16: whatever parameter Rotate accepts, the angle it keeps is a multiple
    of 90 between -270 and 270, and it then reports the matrix size or
    the swapped one, the latter exactly for the odd multiples of 90. *)
Theorem Rotate_accepted_configuration :
  forall (m0 m : RotatePixelMapper.t) (chain parallel : Z) param,
    SetParameters m0 chain parallel param = Some (true, m) ->
    RotatePixelMapper.angle_ m ∈ [-270; -180; -90; 0; 90; 180; 270] /\
    forall W H,
      GetSizeMapping m W H
      = Some (true,
              if decide (RotatePixelMapper.angle_ m ∈ [-180; 0; 180])
              then (W, H) else (H, W)).
Proof.
  intros m0 m chain parallel param Hconf.
  apply Rotate_accepted_angle in Hconf. split; [exact Hconf |].
  intros W H. destruct m as [a]. cbn in *.
  unfold RotatePixelMapper.GetSizeMapping. cbn [RotatePixelMapper.angle_].
  in_list.
  destruct Hconf as [-> | [-> | [-> | [-> | [-> | [-> | [-> | []]]]]]]];
    reflexivity.
Qed.

Lemma Rotate_accepted_configuration_witness :
  RotatePixelMapper.angle_ {| RotatePixelMapper.angle_ := -90 |}
    ∈ [-270; -180; -90; 0; 90; 180; 270] /\
  forall W H,
    GetSizeMapping {| RotatePixelMapper.angle_ := -90 |} W H
    = Some (true,
            if decide (RotatePixelMapper.angle_
                         {| RotatePixelMapper.angle_ := -90 |}
                         ∈ [-180; 0; 180])
            then (W, H) else (H, W)).
Proof.
  apply (Rotate_accepted_configuration RotatePixelMapper.new
           {| RotatePixelMapper.angle_ := -90 |} 1 1 (Some "-450"%string)).
  reflexivity.
Defined.

Lemma Rotate_normalises_from_minus_360_witness :
  RotatePixelMapper.SetParameters RotatePixelMapper.new 1 1
    (Some "-90"%string)
  = Some (true,
          {| RotatePixelMapper.angle_ := int_of_long (-90) mod 360 |}).
Proof.
  apply (Rotate_normalises_from_minus_360 RotatePixelMapper.new 1 1
           "-90"%string (-90));
    [discriminate | reflexivity | reflexivity
    | vm_compute; split; discriminate].
Defined.

Lemma Rotate_below_minus_360_witness :
  exists m,
    RotatePixelMapper.SetParameters RotatePixelMapper.new 1 1
      (Some "-450"%string) = Some (true, m) /\
    RotatePixelMapper.angle_ m ∈ [-270; -180; -90; 0].
Proof.
  apply (Rotate_below_minus_360 RotatePixelMapper.new 1 1
           "-450"%string (-450));
    [discriminate | reflexivity | reflexivity
    | vm_compute; split; [discriminate | reflexivity]].
Defined.

(** ** The registry: listing, keys and frame *)

Lemma string_leb_trans (a b c : string) :
  String.leb a b = true -> String.leb b c = true -> String.leb a c = true.
Proof.
  unfold String.leb.
  assert (H : forall a b c, String.compare a b <> Gt ->
            String.compare b c <> Gt -> String.compare a c <> Gt).
  { clear. induction a as [| x a IH]; intros [| y b] [| z c]; cbn;
      try congruence.
    unfold Ascii.compare.
    destruct (N.compare_spec (N_of_ascii x) (N_of_ascii y)),
             (N.compare_spec (N_of_ascii y) (N_of_ascii z)),
             (N.compare_spec (N_of_ascii x) (N_of_ascii z));
      try lia; try congruence; eauto. }
  intros Hab Hbc. specialize (H a b c).
  destruct (String.compare a b), (String.compare b c), (String.compare a c);
    try reflexivity; try discriminate; exfalso; apply H; congruence.
Qed.

Lemma key_le_trans : Transitive key_le.
Proof. intros x y z. unfold key_le. apply string_leb_trans. Qed.

Lemma key_le_total : Total key_le.
Proof. intros x y. unfold key_le. apply String.leb_total. Qed.

(** X20: the listing holds the name of every registered mapper, once for
    each entry, in the ascending order of the keys. *)
Theorem GetAvailablePixelMappers_lists_the_registry :
  forall v singleton,
    let registry := GetMapperMap v singleton in
    exists entries : list (string * Object),
      GetAvailablePixelMappers v singleton
      = (object_name <$> entries.*2, Some registry) /\
      (forall key mapper,
         (key, mapper) ∈ entries <-> registry !! key = Some mapper) /\
      NoDup entries.*1 /\
      StronglySorted key_le entries /\
      length entries = size registry.
Proof.
  intros v singleton registry.
  exists (merge_sort key_le (map_to_list registry)).
  pose proof (merge_sort_Permutation key_le (map_to_list registry)) as Hperm.
  split; [reflexivity |]. split; [| split; [| split]].
  - intros key mapper. rewrite Hperm. apply elem_of_map_to_list.
  - rewrite Hperm. apply NoDup_fst_map_to_list.
  - apply StronglySorted_merge_sort;
      [apply key_le_trans | apply key_le_total].
  - rewrite Hperm. apply length_map_to_list.
Qed.

(** The keys of the built-in mappers are their lower-cased names, and a
    registration keeps the keys so. *)
Lemma RegisterPixelMapperInternal_keys (registry : MapperByName)
    (mapper : Object) :
  keys_are_lowered_names registry ->
  keys_are_lowered_names (RegisterPixelMapperInternal registry mapper).
Proof.
  intros Hinv key mapper'.
  unfold RegisterPixelMapperInternal. rewrite lookup_insert.
  case_decide as Hkey; [intros [= <-]; now symmetry | apply Hinv].
Qed.

Lemma CreateMapperMap_keys (v : VerticalMapper.t) :
  keys_are_lowered_names (CreateMapperMap v).
Proof.
  unfold CreateMapperMap. repeat apply RegisterPixelMapperInternal_keys.
  intros key mapper. rewrite lookup_empty. discriminate.
Qed.

(** X21: the keys of the built-in mappers are their lower-cased names, and
    registering keeps it so; a lookup keeps it when the mapper it
    configures keeps its name. *)
Theorem keys_stay_lowered_names :
  (forall v, keys_are_lowered_names (CreateMapperMap v)) /\
  (forall v singleton mapper,
     keys_are_lowered_names (GetMapperMap v singleton) ->
     keys_are_lowered_names
       (GetMapperMap v (RegisterPixelMapper v singleton mapper))) /\
  (forall v singleton name chain parallel parameter result singleton',
     keys_are_lowered_names (GetMapperMap v singleton) ->
     (forall mapper ok mapper',
        GetMapperMap v singleton !! lower_name name = Some mapper ->
        object_configure mapper chain parallel parameter
        = Some (ok, mapper') ->
        object_name mapper' = object_name mapper) ->
     FindPixelMapper v singleton name chain parallel parameter
     = Some (result, singleton') ->
     keys_are_lowered_names (GetMapperMap v singleton')).
Proof.
  split; [apply CreateMapperMap_keys | split].
  - intros v singleton mapper Hinv. cbn.
    now apply RegisterPixelMapperInternal_keys.
  - intros v singleton name chain parallel parameter result singleton'
      Hinv Hname.
    destruct (GetMapperMap v singleton !! lower_name name)
      as [mapper |] eqn:Hfound.
    + rewrite (FindPixelMapper_found _ _ _ _ _ _ mapper Hfound).
      destruct (object_configure mapper chain parallel parameter)
        as [[ok mapper'] |] eqn:Hconf; [| discriminate].
      cbn. intros [= _ <-]. cbn. intros key mapper''.
      rewrite lookup_insert. case_decide as Hkey; [| apply Hinv].
      intros [= <-]. rewrite (Hname _ _ _ eq_refl Hconf), <- Hkey.
      now apply Hinv.
    + rewrite FindPixelMapper_unknown by exact Hfound.
      intros [= _ <-]. exact Hinv.
Qed.

Lemma keys_stay_lowered_names_witness :
  keys_are_lowered_names
    (GetMapperMap zeroed
       (RegisterPixelMapper zeroed None
          (object {| RotatePixelMapper.angle_ := 90 |}))) /\
  keys_are_lowered_names
    (GetMapperMap zeroed
       (Some (<["mirror"%string :=
                 object {| MirrorPixelMapper.horizontal_ := false |}]>
                (CreateMapperMap zeroed)))).
Proof.
  split.
  - apply (proj1 (proj2 keys_stay_lowered_names) zeroed None).
    apply CreateMapperMap_keys.
  - apply (proj2 (proj2 keys_stay_lowered_names) zeroed None "MIRROR" 1 1
             (Some "v"%string)
             (Some (object {| MirrorPixelMapper.horizontal_ := false |}))).
    + apply CreateMapperMap_keys.
    + intros mapper ok mapper' [= <-] [= <- <-]. reflexivity.
    + reflexivity.
Defined.

(** X22: while the keys are the lower-cased names, every listed name is one
    the lookup finds, and it leads to the mapper of that name. *)
Theorem listed_names_are_found :
  forall v singleton n,
    keys_are_lowered_names (GetMapperMap v singleton) ->
    n ∈ (GetAvailablePixelMappers v singleton).1 ->
    exists mapper,
      GetMapperMap v singleton !! lower_name n = Some mapper /\
      object_name mapper = n.
Proof.
  intros v singleton n Hinv. cbn.
  rewrite (merge_sort_Permutation key_le).
  rewrite list_elem_of_fmap. intros (mapper & -> & Hin).
  rewrite list_elem_of_fmap in Hin. destruct Hin as ([key m] & -> & Hin).
  cbn. apply elem_of_map_to_list in Hin. exists m. split; [| reflexivity].
  now rewrite <- (Hinv _ _ Hin).
Qed.

Lemma listed_names_are_found_witness :
  exists mapper,
    GetMapperMap zeroed None !! lower_name "U-mapper" = Some mapper /\
    object_name mapper = "U-mapper"%string.
Proof.
  apply (listed_names_are_found zeroed None "U-mapper"%string).
  - apply CreateMapperMap_keys.
  - change ("U-mapper" ∈ ["Mirror"; "Rotate"; "U-mapper"; "V-mapper";
                         "Windmill"])%string.
    in_list. auto.
Defined.

(** X23: registering and looking up change the entry of one key; a lookup
    neither adds nor removes an entry. *)
Theorem registry_changes_one_entry :
  (forall v singleton mapper key,
     key <> lower_name (object_name mapper) ->
     GetMapperMap v (RegisterPixelMapper v singleton mapper) !! key
     = GetMapperMap v singleton !! key) /\
  (forall v singleton name chain parallel parameter result singleton',
     FindPixelMapper v singleton name chain parallel parameter
     = Some (result, singleton') ->
     (forall key,
        key <> lower_name name ->
        GetMapperMap v singleton' !! key = GetMapperMap v singleton !! key) /\
     (forall key,
        is_Some (GetMapperMap v singleton' !! key) <->
        is_Some (GetMapperMap v singleton !! key))).
Proof.
  split.
  - intros v singleton mapper key Hkey. cbn.
    unfold RegisterPixelMapperInternal. now rewrite lookup_insert_ne.
  - intros v singleton name chain parallel parameter result singleton'.
    destruct (GetMapperMap v singleton !! lower_name name)
      as [mapper |] eqn:Hfound.
    + rewrite (FindPixelMapper_found _ _ _ _ _ _ mapper Hfound).
      destruct (object_configure mapper chain parallel parameter)
        as [[ok mapper'] |]; [| discriminate].
      cbn. intros [= _ <-]. cbn. split.
      * intros key Hkey. now rewrite lookup_insert_ne.
      * intros key. rewrite lookup_insert. case_decide as Hkey; [| tauto].
        subst key. rewrite Hfound. split; eauto.
    + rewrite FindPixelMapper_unknown by exact Hfound.
      intros [= _ <-]. cbn. tauto.
Qed.

Lemma registry_changes_one_entry_witness :
  GetMapperMap zeroed
    (RegisterPixelMapper zeroed None
       (object {| RotatePixelMapper.angle_ := 90 |})) !! "mirror"%string
  = GetMapperMap zeroed None !! "mirror"%string.
Proof.
  apply (proj1 registry_changes_one_entry zeroed None
           (object {| RotatePixelMapper.angle_ := 90 |}) "mirror"%string).
  discriminate.
Defined.

Lemma tolower_idempotent (c : ascii) : tolower (tolower c) = tolower c.
Proof. destruct c as [[] [] [] [] [] [] [] []]; reflexivity. Qed.

Lemma lower_name_idempotent (name : string) :
  lower_name (lower_name name) = lower_name name.
Proof.
  induction name as [| c rest IH]; cbn; [reflexivity |].
  now rewrite tolower_idempotent, IH.
Qed.

(** X24: the lookup sees a name through its lower-cased spelling only: two
    names spelled alike up to case give the same call, and so do a name
    and its lower-cased spelling. *)
Theorem lookup_ignores_case :
  forall v singleton name1 name2 chain parallel parameter,
    lower_name name1 = lower_name name2 ->
    FindPixelMapper v singleton name1 chain parallel parameter
    = FindPixelMapper v singleton name2 chain parallel parameter /\
    FindPixelMapper v singleton name1 chain parallel parameter
    = FindPixelMapper v singleton (lower_name name2) chain parallel
        parameter.
Proof.
  intros v singleton name1 name2 chain parallel parameter Hlow.
  unfold FindPixelMapper. now rewrite lower_name_idempotent, Hlow.
Qed.

Lemma lookup_ignores_case_witness :
  FindPixelMapper zeroed None "V-MAPPER" 2 1 (Some "z"%string)
  = FindPixelMapper zeroed None "v-Mapper" 2 1 (Some "z"%string) /\
  FindPixelMapper zeroed None "V-MAPPER" 2 1 (Some "z"%string)
  = FindPixelMapper zeroed None (lower_name "v-Mapper") 2 1
      (Some "z"%string).
Proof.
  apply (lookup_ignores_case zeroed None "V-MAPPER"%string
           "v-Mapper"%string 2 1 (Some "z"%string)).
  reflexivity.
Defined.

Example built_in_listing (v : VerticalMapper.t) :
  (GetAvailablePixelMappers v None).1
  = ["Mirror"; "Rotate"; "U-mapper"; "V-mapper"; "Windmill"]%string.
Proof. reflexivity. Qed.

(** X25: on the map as first created the names "rotate", "u-mapper",
    "v-mapper", "windmill" and "mirror", in any case, lead to the five
    built-in mappers in their initial state, and no other name is known. *)
Theorem names_of_the_built_in_mappers :
  forall (v : VerticalMapper.t) (name : string) chain parallel parameter,
    let find := FindPixelMapper v None name chain parallel parameter in
    let entry key mapper :=
      configured_entry (CreateMapperMap v) key mapper
        chain parallel parameter in
    (lower_name name = "rotate"%string ->
     find = entry "rotate"%string (object RotatePixelMapper.new)) /\
    (lower_name name = "u-mapper"%string ->
     find = entry "u-mapper"%string (object UArrangementMapper.new)) /\
    (lower_name name = "v-mapper"%string ->
     find = entry "v-mapper"%string (object v)) /\
    (lower_name name = "windmill"%string ->
     find = entry "windmill"%string (object WindmillPixelMapper.new)) /\
    (lower_name name = "mirror"%string ->
     find = entry "mirror"%string (object MirrorPixelMapper.new)) /\
    (lower_name name
       ∉ ["rotate"; "u-mapper"; "v-mapper"; "windmill"; "mirror"]%string ->
     find = Some (None, Some (CreateMapperMap v))).
Proof.
  intros v name chain parallel parameter find entry.
  subst find entry. cbv beta.
  assert (Hfound : forall key mapper,
            CreateMapperMap v !! key = Some mapper ->
            lower_name name = key ->
            FindPixelMapper v None name chain parallel parameter
            = configured_entry (CreateMapperMap v) key mapper
                chain parallel parameter).
  { intros key mapper Hkey <-.
    now rewrite (FindPixelMapper_found v None name _ _ _ mapper Hkey). }
  split; [| split; [| split; [| split; [| split]]]]; intros Hname;
    try (apply Hfound; [reflexivity | exact Hname]).
  apply FindPixelMapper_unknown. cbn.
  unfold CreateMapperMap, RegisterPixelMapperInternal. cbn.
  rewrite !lookup_insert_ne, lookup_empty;
    [reflexivity | ..]; intros E; apply Hname; rewrite <- E;
    rewrite ?elem_of_cons; cbv; auto 10.
Qed.

Lemma names_of_the_built_in_mappers_witness :
  FindPixelMapper zeroed None "MIRROR" 1 1 (Some "v"%string)
  = configured_entry (CreateMapperMap zeroed) "mirror"
      (object MirrorPixelMapper.new) 1 1 (Some "v"%string) /\
  FindPixelMapper zeroed None "Vertical" 1 1 None
  = Some (None, Some (CreateMapperMap zeroed)).
Proof.
  split.
  - apply (proj1 (proj2 (proj2 (proj2 (proj2
             (names_of_the_built_in_mappers zeroed "MIRROR" 1 1
                (Some "v"%string))))))).
    reflexivity.
  - apply (proj2 (proj2 (proj2 (proj2 (proj2
             (names_of_the_built_in_mappers zeroed "Vertical" 1 1 None)))))).
    cbn. in_list. intros [| [| [| [| [|]]]]]; discriminate || assumption.
Defined.
